(** * Contact scraper: the extraction engine of [scrapper.py]

    A shallow embedding of class [ContactScraper]: the pattern library, the
    phone plausibility filter, the five category detectors and the
    aggregator [scrape_contact_page], followed by the properties of the
    specification that were checked against them.

    Modelling conventions.
    - Python [str] values are [string]s; the text of a page is taken to be
      ASCII, so that [\d], [\s], [str.lower] and [str.strip] are the ASCII
      restrictions of the Python predicates.
    - A Python [set] of strings is a [gset string].
    - The standard [re] module is embedded as a backtracking matcher with the
      priorities of the Python engine (greedy repetition, ordered
      alternation, leftmost match, non-overlapping scan).
    - BeautifulSoup, requests and urllib are libraries outside the repository:
      a parsed page is the record of the answers to the queries the detectors
      make, and a fetch is its outcome. *)

From Stdlib Require Import Ascii String.
From stdpp Require Import base option list gmap strings.

#[local] Set Warnings "-clear-no-such-hyp".

Local Open Scope char_scope.

(** ** Characters *)

Module Chr.

Definition between (lo hi c : ascii) : bool :=
  Ascii.leb lo c && Ascii.leb c hi.

(** [\d] *)
Definition is_digit (c : ascii) : bool := between "0" "9" c.

(** [\s], and the characters removed by [str.strip()]: tab, line feed,
    vertical tab, form feed, carriage return, the four separators
    FS GS RS US, and the space. *)
Definition is_space (c : ascii) : bool :=
  between "009" "013" c || between "028" "031" c || Ascii.eqb c " ".

Definition is_upper (c : ascii) : bool := between "A" "Z" c.
Definition is_lower (c : ascii) : bool := between "a" "z" c.
Definition is_alpha (c : ascii) : bool := is_upper c || is_lower c.

Definition lower (c : ascii) : ascii :=
  if is_upper c then ascii_of_N (N_of_ascii c + 32) else c.
Definition upper (c : ascii) : ascii :=
  if is_lower c then ascii_of_N (N_of_ascii c - 32) else c.

(** membership of a character in the characters of a string, as in the
    character sets [[...]] and in [str.rstrip(chars)] *)
Fixpoint one_of (chars : string) (c : ascii) : bool :=
  match chars with
  | EmptyString => false
  | String d chars' => Ascii.eqb c d || one_of chars' c
  end.

End Chr.

(** ** The methods of [str] that the scraper calls *)

Module Str.

Fixpoint take (n : nat) (s : string) : string :=
  match n, s with
  | S n', String c s' => String c (take n' s')
  | _, _ => EmptyString
  end.

Fixpoint drop (n : nat) (s : string) : string :=
  match n, s with
  | S n', String _ s' => drop n' s'
  | _, _ => s
  end.

(** [s[a:b]] for [0 <= a] and [0 <= b] *)
Definition slice (a b : nat) (s : string) : string := take (b - a) (drop a s).

Fixpoint rev_onto (s acc : string) : string :=
  match s with
  | EmptyString => acc
  | String c s' => rev_onto s' (String c acc)
  end.
Definition rev (s : string) : string := rev_onto s EmptyString.

Fixpoint lstrip_by (p : ascii -> bool) (s : string) : string :=
  match s with
  | String c s' => if p c then lstrip_by p s' else s
  | EmptyString => EmptyString
  end.
Definition rstrip_by (p : ascii -> bool) (s : string) : string :=
  rev (lstrip_by p (rev s)).

(** [s.strip()] *)
Definition strip (s : string) : string :=
  rstrip_by Chr.is_space (lstrip_by Chr.is_space s).
(** [s.rstrip(chars)] *)
Definition rstrip (chars s : string) : string := rstrip_by (Chr.one_of chars) s.

(** [s.lower()] *)
Fixpoint lower (s : string) : string :=
  match s with
  | EmptyString => EmptyString
  | String c s' => String (Chr.lower c) (lower s')
  end.

(** [s.startswith(p)] *)
Fixpoint startswith (p s : string) : bool :=
  match p, s with
  | EmptyString, _ => true
  | String a p', String b s' => Ascii.eqb a b && startswith p' s'
  | String _ _, EmptyString => false
  end.
(** [s.startswith((p1, p2, ...))] *)
Definition startswith_any (ps : list string) (s : string) : bool :=
  existsb (fun p => startswith p s) ps.

(** [s.endswith((p1, p2, ...))] *)
Definition endswith (p s : string) : bool := startswith (rev p) (rev s).
Definition endswith_any (ps : list string) (s : string) : bool :=
  existsb (fun p => endswith p s) ps.

(** [sub in s] *)
Fixpoint contains (sub s : string) : bool :=
  startswith sub s ||
  match s with
  | EmptyString => false
  | String _ s' => contains sub s'
  end.

(** [s.replace(old, '')] for a non-empty [old]: every occurrence, scanning
    from the left, is removed.  [skip] counts the characters of the
    occurrence found last that are still to be dropped. *)
Fixpoint remove_from (old s : string) (skip : nat) : string :=
  match s with
  | EmptyString => EmptyString
  | String c s' =>
      match skip with
      | S n => remove_from old s' n
      | O => if startswith old s
             then remove_from old s' (String.length old - 1)
             else String c (remove_from old s' 0)
      end
  end.
Definition remove_all (old s : string) : string := remove_from old s 0.

(** [s.split(sep)] for a one-character separator, as a first piece and
    the list of the others *)
Fixpoint split_on (sep : ascii) (s : string) : string * list string :=
  match s with
  | EmptyString => (EmptyString, [])
  | String c s' =>
      let '(hd, tl) := split_on sep s' in
      if Ascii.eqb c sep then (EmptyString, hd :: tl) else (String c hd, tl)
  end.
Definition split (sep : ascii) (s : string) : list string :=
  let '(hd, tl) := split_on sep s in hd :: tl.
(** [s.split(sep)[0]] *)
Definition split_head (sep : ascii) (s : string) : string := (split_on sep s).1.

(** [sep.join(parts)] *)
Definition join (sep : string) (parts : list string) : string :=
  String.concat sep parts.

End Str.

(** Python's list slice [l[a:b]] for [0 <= a] and [0 <= b] *)
Definition list_slice {A} (a b : nat) (l : list A) : list A :=
  take (b - a) (drop a l).

(** ** The [re] module

    The patterns of the scraper quantify only over single characters and
    character sets, and have at most one capturing group; the syntax below
    covers exactly that fragment. *)

Module Re.

Inductive regex : Type :=
| Eps
| Cls (p : ascii -> bool)                          (* one character of a set *)
| Cat (r1 r2 : regex)
| Alt (r1 r2 : regex)                              (* r1|r2, r1 tried first *)
| Rep (p : ascii -> bool) (lo : nat) (hi : option nat)   (* greedy {lo,hi} *)
| Grp (r : regex).                                 (* the capturing group *)

(** a literal character, a literal word, [x?], [x*], [x+] *)
Definition chr (c : ascii) : regex := Cls (Ascii.eqb c).
Fixpoint lit (w : string) : regex :=
  match w with
  | EmptyString => Eps
  | String c w' => Cat (chr c) (lit w')
  end.
Definition opt (p : ascii -> bool) : regex := Rep p 0 (Some 1).
Definition star (p : ascii -> bool) : regex := Rep p 0 None.
Definition plus (p : ascii -> bool) : regex := Rep p 1 None.

Fixpoint seq (rs : list regex) : regex :=
  match rs with
  | [] => Eps
  | [r] => r
  | r :: rs' => Cat r (seq rs')
  end.

(** One character against a (positive) set; under [re.IGNORECASE] the
    other case of the character is tried as well.  This is the flag on the
    characters below 256, those of this model: on a Python [str] it also
    lets an ASCII letter match a few characters beyond them (U+0130 and
    U+0131 for i, U+017F for s, U+212A for k), which no [string] here can
    hold. *)
Definition cmatch (ic : bool) (p : ascii -> bool) (c : ascii) : bool :=
  p c || ic && (p (Chr.lower c) || p (Chr.upper c)).

Definition may_repeat (hi : option nat) : bool :=
  match hi with Some O => false | _ => true end.

Section Matcher.
Context {A : Type}.
Variable ic : bool.

(** Greedy repetition: one more character first, and the continuation
    at the current position only when that fails. *)
Fixpoint rep (p : ascii -> bool) (lo : nat) (hi : option nat)
    (s : string) (k : string -> option A) : option A :=
  let stop := match lo with O => k s | S _ => None end in
  match s with
  | String c s' =>
      if cmatch ic p c && may_repeat hi then
        match rep p (pred lo) (pred <$> hi) s' k with
        | Some x => Some x
        | None => stop
        end
      else stop
  | EmptyString => stop
  end.

(** [exec r s g k]: match [r] at the head of [s], with [g] the text
    captured so far, and hand the rest of the subject to [k]; a [None]
    from [k] makes the matcher backtrack. *)
Fixpoint exec (r : regex) (s : string) (g : option string)
    (k : string -> option string -> option A) : option A :=
  match r with
  | Eps => k s g
  | Cls p =>
      match s with
      | String c s' => if cmatch ic p c then k s' g else None
      | EmptyString => None
      end
  | Cat r1 r2 => exec r1 s g (fun s1 g1 => exec r2 s1 g1 k)
  | Alt r1 r2 =>
      match exec r1 s g k with
      | Some x => Some x
      | None => exec r2 s g k
      end
  | Rep p lo hi => rep p lo hi s (fun s' => k s' g)
  | Grp r1 =>
      exec r1 s g (fun s1 _ =>
        k s1 (Some (Str.take (String.length s - String.length s1) s)))
  end.
End Matcher.

(** the text of a match and the text of its group, if it took part *)
Definition found : Type := string * option string.

(** A match anchored at the head of [s]; with [must_advance] an empty
    match is refused and the matcher backtracks for a longer one. *)
Definition try_at (ic : bool) (r : regex) (s : string) (must_advance : bool)
    : option found :=
  exec ic r s None (fun s' g =>
    let n := String.length s - String.length s' in
    if must_advance && Nat.eqb n 0 then None else Some (Str.take n s, g)).

(** [re.match(r, s)] *)
Definition rmatch (ic : bool) (r : regex) (s : string) : option found :=
  try_at ic r s false.

(** [re.finditer(r, s)]: the non-overlapping matches from left to right,
    each with its start offset.  [pos] is the offset of [s] in the subject
    and [skip] the number of characters still covered by the last match.
    After an empty match only a non-empty one may start at the same
    offset. *)
Fixpoint scan (ic : bool) (r : regex) (s : string) (pos skip : nat)
    : list (nat * found) :=
  match skip with
  | S n =>
      match s with
      | String _ s' => scan ic r s' (S pos) n
      | EmptyString => []
      end
  | O =>
      let next sk :=
        match s with
        | String _ s' => scan ic r s' (S pos) sk
        | EmptyString => []
        end in
      match try_at ic r s false with
      | None => next 0
      | Some m =>
          if Nat.eqb (String.length m.1) 0 then
            (pos, m) ::
            match try_at ic r s true with
            | None => next 0
            | Some m' => (pos, m') :: next (String.length m'.1 - 1)
            end
          else (pos, m) :: next (String.length m.1 - 1)
      end
  end.

Definition finditer (ic : bool) (r : regex) (s : string) : list (nat * found) :=
  scan ic r s 0 0.

Fixpoint has_group (r : regex) : bool :=
  match r with
  | Grp _ => true
  | Cat r1 r2 | Alt r1 r2 => has_group r1 || has_group r2
  | _ => false
  end.

(** what [findall] and [group(1)] report for one match *)
Definition group1 (m : found) : string := default EmptyString m.2.
Definition report (r : regex) (m : found) : string :=
  if has_group r then group1 m else m.1.

(** [re.findall(r, s)] *)
Definition findall (ic : bool) (r : regex) (s : string) : list string :=
  map (fun pm => report r pm.2) (finditer ic r s).

(** [re.search(r, s)] *)
Definition search (ic : bool) (r : regex) (s : string) : option found :=
  snd <$> head (finditer ic r s).

(** [re.sub(r, repl, s)] for a replacement without group references *)
Fixpoint splice (ms : list (nat * found)) (repl s : string) (pos : nat)
    : string :=
  match ms with
  | [] => s
  | (start, m) :: ms' =>
      let gap := start - pos in
      let len := String.length m.1 in
      Str.take gap s +:+ repl +:+
      splice ms' repl (Str.drop (gap + len) s) (start + len)
  end.
Definition sub (r : regex) (repl s : string) : string :=
  splice (finditer false r s) repl s 0.

End Re.

Local Close Scope char_scope.

(** ** The pattern library ([ContactScraper.__init__]) *)

Definition dquote : ascii := "034"%char.

Definition email_local (c : ascii) : bool :=
  Chr.is_alpha c || Chr.is_digit c || Chr.one_of "._%+-" c.
Definition email_domain (c : ascii) : bool :=
  Chr.is_alpha c || Chr.is_digit c || Chr.one_of ".-" c.
Definition nonzero_digit (c : ascii) : bool := Chr.between "1" "9" c.
Definition phone_sep (c : ascii) : bool := Chr.is_space c || Chr.one_of ".-" c.
Definition non_digit (c : ascii) : bool := negb (Chr.is_digit c).
Definition url_char (c : ascii) : bool :=
  negb (Chr.is_space c || Chr.one_of (String dquote "<>'{}|\^`[]") c).

(** [[a-zA-Z0-9._%+-]+@[a-zA-Z0-9.-]+\.[a-zA-Z]{2,}] *)
Definition EMAIL_REGEX : Re.regex :=
  Re.seq [Re.plus email_local; Re.chr "@"; Re.plus email_domain; Re.chr ".";
          Re.Rep Chr.is_alpha 2 None].

(** [(\+?[1-9]\d{0,3}[\s.-]?\d{2,4}[\s.-]?\d{2,4}[\s.-]?\d{2,4})] *)
Definition PHONE_REGEX : Re.regex :=
  Re.Grp (Re.seq [Re.opt (Ascii.eqb "+"); Re.Cls nonzero_digit;
                  Re.Rep Chr.is_digit 0 (Some 3);
                  Re.opt phone_sep; Re.Rep Chr.is_digit 2 (Some 4);
                  Re.opt phone_sep; Re.Rep Chr.is_digit 2 (Some 4);
                  Re.opt phone_sep; Re.Rep Chr.is_digit 2 (Some 4)]).

(** [(?:whatsapp|whats app|wa|w\.a\.?)\s*:?\s*(\+?[1-9]\d{7,15})] *)
Definition WHATSAPP_REGEX : Re.regex :=
  Re.seq [Re.Alt (Re.lit "whatsapp")
            (Re.Alt (Re.lit "whats app")
               (Re.Alt (Re.lit "wa")
                  (Re.Cat (Re.lit "w.a") (Re.opt (Ascii.eqb ".")))));
          Re.star Chr.is_space; Re.opt (Ascii.eqb ":"); Re.star Chr.is_space;
          Re.Grp (Re.seq [Re.opt (Ascii.eqb "+"); Re.Cls nonzero_digit;
                          Re.Rep Chr.is_digit 7 (Some 15)])].

(** [https?://] followed by any run of characters other than white space,
    angle brackets, quotes, braces, bar, backslash, caret, backquote and
    square brackets *)
Definition URL_REGEX : Re.regex :=
  Re.seq [Re.lit "http"; Re.opt (Ascii.eqb "s"); Re.lit "://"; Re.star url_char].

Definition ADDRESS_KEYWORDS : list string :=
  ["address"; "location"; "addr"; "office"; "headquarters"; "visit us";
   "find us"; "our location"; "contact address"; "postal address";
   "street"; "building"; "floor"; "suite"; "room"; "block"; "plot";
   "city"; "state"; "country"; "pin"; "zip"; "postal code"].

(** ** A parsed page

    What the detectors read of a [BeautifulSoup] object, query by query, each
    list in document order. *)
Record soup : Type := {
  (** [soup.get_text()] *)
  get_text : string;
  (** [link['href']] for [link] in [soup.find_all('a', href=True)] *)
  a_href : list string;
  (** [element.get('data-email')] over [find_all(attrs={'data-email': True})] *)
  data_email : list string;
  (** [element.get('data-phone')] over [find_all(attrs={'data-phone': True})] *)
  data_phone : list string;
  (** [get_text(separator=' ', strip=True)] of each [<address>] element *)
  address_tags : list string;
  (** the same text, for the elements whose class matches a given name *)
  class_matches : string -> list string;
  (** the same text, for the elements whose [itemtype] matches [address] *)
  itemtype_address : list string;
  (** [element.get_text()] of the [button], [div] and [span] elements whose
      string matches a WhatsApp keyword *)
  whatsapp_elements : list string
}.

(** ** The phone plausibility filter *)

(** [re.sub(r'\s+', ' ', num.strip())] *)
Definition normalize_spaces (num : string) : string :=
  Re.sub (Re.plus Chr.is_space) " " (Str.strip num).
(** [re.sub(r'\D', '', s)] *)
Definition strip_non_digits (s : string) : string :=
  Re.sub (Re.Cls non_digit) "" s.

(** One turn of the loop of [clean_phone_numbers]; each [continue] leaves
    the set as it is. *)
Definition clean_phone_step (cleaned : gset string) (num : string) : gset string :=
  let clean_num := normalize_spaces num in
  let digits_only := strip_non_digits clean_num in
  if (String.length digits_only <? 7) || (15 <? String.length digits_only)
  then cleaned
  else if Str.startswith_any ["0000"; "1111"; "2222"; "3333"] digits_only
  then cleaned
  else if (String.length digits_only =? 4)
          && Str.startswith_any ["19"; "20"] digits_only
  then cleaned
  else if (10 <=? String.length digits_only)
          && Str.startswith_any ["16"; "17"; "20"] digits_only
  then cleaned
  else cleaned ∪ {[clean_num]}.

Definition clean_phone_numbers (raw_numbers : list string) : gset string :=
  foldl clean_phone_step ∅ raw_numbers.

(** ** The category detectors *)

(** [href.replace('mailto:', '').split('?')[0].split('&')[0]] *)
Definition mailto_target (href : string) : string :=
  Str.split_head "&" (Str.split_head "?" (Str.remove_all "mailto:" href)).

(** the body of the loop over the [mailto:] links *)
Definition mailto_step (emails : gset string) (href : string) : gset string :=
  if Str.startswith "mailto:" href then
    let email := mailto_target href in
    match Re.rmatch false EMAIL_REGEX email with
    | Some _ => emails ∪ {[email]}
    | None => emails
    end
  else emails.

(** the body of the loop over the [data-email] attributes *)
Definition data_email_step (emails : gset string) (email : string) : gset string :=
  match Re.rmatch false EMAIL_REGEX email with
  | Some _ => emails ∪ {[email]}
  | None => emails
  end.

Definition extract_emails (sp : soup) : gset string :=
  let emails : gset string := ∅ in
  let text := get_text sp in
  let found_emails := Re.findall true EMAIL_REGEX text in
  let emails := emails ∪ list_to_set found_emails in
  let emails := foldl mailto_step emails (a_href sp) in
  let emails := foldl data_email_step emails (data_email sp) in
  emails.

(** the [tel:] links, each as [href.replace('tel:', '').strip()] *)
Definition tel_links (hrefs : list string) : list string :=
  omap (fun href =>
          if Str.startswith "tel:" href
          then Some (Str.strip (Str.remove_all "tel:" href))
          else None) hrefs.

Definition extract_phones (sp : soup) : gset string :=
  let text := get_text sp in
  let text_phones := Re.findall false PHONE_REGEX text in
  let raw_phones := text_phones ++ tel_links (a_href sp) ++ data_phone sp in
  clean_phone_numbers raw_phones.

(** the first strategy of [extract_whatsapp]: keyword and number in the text *)
Definition whatsapp_text_step (numbers : gset string) (mtch : string) : gset string :=
  let clean_match := strip_non_digits mtch in
  if 7 <=? String.length clean_match then numbers ∪ {[mtch]} else numbers.

Definition whatsapp_from_text (numbers : gset string) (text : string) : gset string :=
  foldl whatsapp_text_step numbers (Re.findall true WHATSAPP_REGEX text).

(** the second strategy: [(\+?\d{7,15})] in a link to WhatsApp *)
Definition whatsapp_link_step (numbers : gset string) (href : string) : gset string :=
  if Str.contains "wa.me" href || Str.contains "whatsapp.com" href
     || Str.contains "api.whatsapp.com" href
  then
    match Re.search false
            (Re.Grp (Re.Cat (Re.opt (Ascii.eqb "+"))
                       (Re.Rep Chr.is_digit 7 (Some 15)))) href with
    | Some wa_match => numbers ∪ {[Re.group1 wa_match]}
    | None => numbers
    end
  else numbers.

(** the third strategy: [(\+?\d[\d\s()-]{7,15})] in the text of an element
    that names WhatsApp *)
Definition whatsapp_element_step (numbers : gset string) (element_text : string)
    : gset string :=
  foldl (fun numbers num =>
           let clean_num := strip_non_digits num in
           if 7 <=? String.length clean_num then numbers ∪ {[num]} else numbers)
    numbers
    (Re.findall false
       (Re.Grp (Re.seq [Re.opt (Ascii.eqb "+"); Re.Cls Chr.is_digit;
                        Re.Rep (fun c => Chr.is_digit c || Chr.is_space c
                                         || Chr.one_of "()-" c) 7 (Some 15)]))
       element_text).

Definition extract_whatsapp (sp : soup) : gset string :=
  let whatsapp_numbers : gset string := ∅ in
  let whatsapp_numbers := whatsapp_from_text whatsapp_numbers (get_text sp) in
  let whatsapp_numbers := foldl whatsapp_link_step whatsapp_numbers (a_href sp) in
  let whatsapp_numbers :=
    foldl whatsapp_element_step whatsapp_numbers (whatsapp_elements sp) in
  whatsapp_numbers.

Definition MEDIA_EXTENSIONS : list string :=
  [".jpg"; ".png"; ".css"; ".js"; ".pdf"; ".jpeg"; ".svg"; ".gif"; ".ico"].

(** [s.lower().endswith(('.jpg', '.png', ...))] *)
Definition is_media (s : string) : bool :=
  Str.endswith_any MEDIA_EXTENSIONS (Str.lower s).

Section Urls.
(** [urllib.parse]: the scheme and the network location found by
    [urlparse], and [urljoin]. *)
Variable urlparse : string -> string * string.
Variable urljoin : string -> string -> string.

Definition base_domain_of (base_url : string) : string :=
  let parsed_base := urlparse base_url in
  parsed_base.1 +:+ "://" +:+ parsed_base.2.

(** the body of the loop over the URLs found in the text *)
Definition text_url_step (urls : gset string) (url : string) : gset string :=
  let punctuation_chars := ".,;:)]}>" +:+ String dquote "'" in
  let clean_url := Str.rstrip punctuation_chars url in
  if negb (is_media clean_url) then urls ∪ {[clean_url]} else urls.

(** the body of the loop over the anchors *)
Definition href_url_step (base_domain : string) (urls : gset string)
    (href : string) : gset string :=
  if Str.startswith "http" href then
    if negb (is_media href) then urls ∪ {[href]} else urls
  else if Str.startswith "/" href then
    let full_url := urljoin base_domain href in
    urls ∪ {[full_url]}
  else urls.

Definition extract_urls (sp : soup) (base_url : string) : gset string :=
  let urls : gset string := ∅ in
  let base_domain := base_domain_of base_url in
  let urls := urls ∪ {[base_domain]} in
  let text := get_text sp in
  let text_urls := Re.findall false URL_REGEX text in
  let urls := foldl text_url_step urls text_urls in
  let urls := foldl (href_url_step base_domain) urls (a_href sp) in
  urls.
End Urls.

(** the four strategies of [extract_addresses] that read the markup or the
    postal codes *)
Definition address_tag_step (addresses : gset string) (addr_text : string)
    : gset string :=
  if 10 <? String.length addr_text then addresses ∪ {[addr_text]} else addresses.

Definition address_class_step (addresses : gset string) (addr_text : string)
    : gset string :=
  if (15 <? String.length addr_text) && (String.length addr_text <? 400)
  then addresses ∪ {[addr_text]} else addresses.

Definition address_classes : list string :=
  ["address"; "location"; "contact-info"; "office-address"].

(** Strategy 4: a line with an address keyword, and the lines around it *)
Definition has_address_keyword (line : string) : bool :=
  existsb (fun keyword => Str.contains keyword (Str.lower line)) ADDRESS_KEYWORDS.

Definition non_blank (l : string) : bool :=
  negb (String.eqb (Str.strip l) "").

(** [max(0, i - 1)] is written with the truncated subtraction of [nat],
    which already stops at zero. *)
Definition context_of (text_lines : list string) (i : nat) : string :=
  let context_start := Nat.max 0 (i - 1) in
  let context_end := Nat.min (length text_lines) (i + 4) in
  let context_lines :=
    map Str.strip (List.filter non_blank
                     (list_slice context_start context_end text_lines)) in
  Str.join " " context_lines.

Definition address_context_step (text_lines : list string)
    (addresses : gset string) (il : nat * string) : gset string :=
  let '(i, line) := il in
  let line := Str.strip line in
  if negb (String.eqb line "") && has_address_keyword line then
    let context := context_of text_lines i in
    if (20 <? String.length context) && (String.length context <? 500)
    then addresses ∪ {[context]} else addresses
  else addresses.

Definition addresses_from_context (addresses : gset string) (text : string)
    : gset string :=
  let text_lines := Str.split "010" text in
  foldl (address_context_step text_lines) addresses (imap pair text_lines).

(** Strategy 5: a postal code with a street or locality word near it *)
Definition upper_letter (c : ascii) : bool := Chr.is_upper c.

Definition postal_patterns : list Re.regex :=
  [Re.Rep Chr.is_digit 5 (Some 6);
   Re.seq [Re.Rep Chr.is_digit 3 (Some 3); Re.star Chr.is_space;
           Re.Rep Chr.is_digit 3 (Some 3)];
   Re.seq [Re.Rep upper_letter 1 (Some 2); Re.Rep Chr.is_digit 1 (Some 2);
           Re.opt upper_letter; Re.star Chr.is_space; Re.Cls Chr.is_digit;
           Re.Rep upper_letter 2 (Some 2)]].

Definition address_postal_step (text : string) (addresses : gset string)
    (mtch : nat * Re.found) : gset string :=
  let m_start := mtch.1 in
  let m_end := mtch.1 + String.length mtch.2.1 in
  let start_pos := Nat.max 0 (m_start - 100) in
  let end_pos := Nat.min (String.length text) (m_end + 100) in
  let context := Str.strip (Str.slice start_pos end_pos text) in
  if existsb (fun keyword => Str.contains keyword (Str.lower context))
       ["street"; "road"; "avenue"; "city"; "town"]
  then
    let lines := Str.split "010" context in
    let address_lines :=
      map Str.strip
        (List.filter (fun line => non_blank line
                                   && (5 <? String.length (Str.strip line)))
           lines) in
    match address_lines with
    | [] => addresses
    | _ :: _ =>
        let full_address := Str.join " " address_lines in
        if (30 <? String.length full_address)
           && (String.length full_address <? 300)
        then addresses ∪ {[full_address]} else addresses
    end
  else addresses.

Definition extract_addresses (sp : soup) : gset string :=
  let addresses : gset string := ∅ in
  let addresses := foldl address_tag_step addresses (address_tags sp) in
  let addresses :=
    foldl (fun addresses class_name =>
             foldl address_class_step addresses (class_matches sp class_name))
      addresses address_classes in
  let addresses := foldl address_tag_step addresses (itemtype_address sp) in
  let addresses := addresses_from_context addresses (get_text sp) in
  let text := get_text sp in
  let addresses :=
    foldl (fun addresses pattern =>
             foldl (address_postal_step text) addresses
               (Re.finditer false pattern text))
      addresses postal_patterns in
  addresses.

(** ** The aggregator *)

(** the dictionary returned by [scrape_contact_page] *)
Record result : Type := {
  emails : gset string;
  phones : gset string;
  whatsapp : gset string;
  urls : gset string;
  addresses : gset string;
  status : string
}.

(** [_empty_result(status='failed')] *)
Definition _empty_result (st : option string) : result :=
  {| emails := ∅; phones := ∅; whatsapp := ∅; urls := ∅; addresses := ∅;
     status := default "failed" st |}.

(** The exceptions [session.get] can raise, by class: in [requests],
    [ConnectTimeout] derives from both [ConnectionError] and [Timeout],
    [ReadTimeout] from [Timeout], and all of them from [RequestException]. *)
Inductive exn : Type :=
| ConnectTimeout
| ReadTimeout
| Timeout
| ConnectionError
| RequestException      (* any other exception of [requests] *)
| OtherException.       (* any other [Exception] *)

Definition is_Timeout (e : exn) : bool :=
  match e with ConnectTimeout | ReadTimeout | Timeout => true | _ => false end.
Definition is_ConnectionError (e : exn) : bool :=
  match e with ConnectTimeout | ConnectionError => true | _ => false end.
Definition is_RequestException (e : exn) : bool :=
  match e with OtherException => false | _ => true end.

Record response : Type := {
  status_code : nat;
  content_type_header : option string;   (* [headers.get('content-type')] *)
  content : string
}.

(** what [session.get(url, ...)] did: it raised, or it returned a response.
    With the retry policy of the session a response whose code is in the
    retry list (429, 500, 502, 503, 504) is not returned: once the retries
    are used up the call raises an exception of the HTTP library. *)
Inductive fetched : Type :=
| Raised (e : exn)
| Returned (resp : response).

Section Aggregator.
Variable urlparse : string -> string * string.
Variable urljoin : string -> string -> string.
(** [BeautifulSoup(content, 'html.parser')] *)
Variable parse : string -> soup.
(** the network, as the outcome of [session.get] for each URL *)
Variable session_get : string -> fetched.
(** The exception, if any, raised inside the [try] block after the response
    has passed the two tests: by the parser, by [urlparse] or [urljoin] in
    [extract_urls] (a [ValueError] on a malformed target), or by any other
    library call of the detectors.  The detectors below describe what is
    computed when nothing is raised. *)
Variable post_fetch_error : response -> string -> option exn.

Definition normalize_url (url : string) : string :=
  if negb (Str.startswith_any ["http://"; "https://"] url)
  then "https://" +:+ url else url.

(** the [except] clauses, in their order *)
Definition handler_status (e : exn) : string :=
  if is_Timeout e then "timeout"
  else if is_ConnectionError e then "connection_error"
  else if is_RequestException e then "request_error"
  else "unexpected_error".

Definition scrape_contact_page (url : string) : result :=
  let url := normalize_url url in
  match session_get url with
  | Raised e => _empty_result (Some (handler_status e))
  | Returned resp =>
      if negb (status_code resp =? 200) then _empty_result None
      else
        let content_type := default "" (content_type_header resp) in
        if negb (Str.contains "text/html" content_type) then _empty_result None
        else
          match post_fetch_error resp url with
          | Some e => _empty_result (Some (handler_status e))
          | None =>
              let sp := parse (content resp) in
              {| emails := extract_emails sp;
                 phones := extract_phones sp;
                 whatsapp := extract_whatsapp sp;
                 urls := extract_urls urlparse urljoin sp url;
                 addresses := extract_addresses sp;
                 status := "success" |}
          end
  end.
End Aggregator.

(** ** [urllib.parse], for root URLs and plain absolute paths

    A model of the two library calls on the inputs used in the examples
    below: [urlparse] on [scheme://host/...], and [urljoin] of a base
    [scheme://host] with a reference that starts with a slash and has no dot
    segment, query or fragment. *)
Module Urllib.

Fixpoint take_until (p : ascii -> bool) (s : string) : string :=
  match s with
  | String c s' => if p c then EmptyString else String c (take_until p s')
  | EmptyString => EmptyString
  end.

Definition urlparse (url : string) : string * string :=
  let scheme := Str.split_head ":" url in
  let rest := Str.drop (String.length scheme + 1) url in
  if Str.startswith "//" rest
  then (Str.lower scheme, take_until (Chr.one_of "/?#") (Str.drop 2 rest))
  else (Str.lower scheme, EmptyString).

Definition urljoin (base url : string) : string :=
  if Str.startswith "//" url then Str.split_head ":" base +:+ ":" +:+ url
  else if Str.startswith "/" url then base +:+ url
  else url.

End Urllib.

(** ** The filter without its year rule

    [clean_phone_numbers] with the test on four-digit years taken out, to
    compare with the function of the source. *)
Definition clean_phone_step_no_year (cleaned : gset string) (num : string)
    : gset string :=
  let clean_num := normalize_spaces num in
  let digits_only := strip_non_digits clean_num in
  if (String.length digits_only <? 7) || (15 <? String.length digits_only)
  then cleaned
  else if Str.startswith_any ["0000"; "1111"; "2222"; "3333"] digits_only
  then cleaned
  else if (10 <=? String.length digits_only)
          && Str.startswith_any ["16"; "17"; "20"] digits_only
  then cleaned
  else cleaned ∪ {[clean_num]}.

Definition clean_phone_numbers_no_year (raw_numbers : list string) : gset string :=
  foldl clean_phone_step_no_year ∅ raw_numbers.

(** the verdict of the filter on one candidate *)
Definition plausible (num : string) : bool :=
  let digits_only := strip_non_digits (normalize_spaces num) in
  negb ((String.length digits_only <? 7) || (15 <? String.length digits_only))
  && negb (Str.startswith_any ["0000"; "1111"; "2222"; "3333"] digits_only)
  && negb ((String.length digits_only =? 4)
           && Str.startswith_any ["19"; "20"] digits_only)
  && negb ((10 <=? String.length digits_only)
           && Str.startswith_any ["16"; "17"; "20"] digits_only).

(** ** The words of a pattern

    The declarative reading of the patterns, against which the matcher is
    checked. *)
Module ReSem.
Import Re.

(** words of between [lo] and [hi] characters of a set *)
Inductive reps (q : ascii -> bool) : nat -> option nat -> string -> Prop :=
| reps_nil hi : reps q 0 hi ""
| reps_cons lo hi c w :
    q c = true -> may_repeat hi = true ->
    reps q (pred lo) (pred <$> hi) w -> reps q lo hi (String c w).

(** the words a pattern denotes *)
Inductive lang (ic : bool) : regex -> string -> Prop :=
| lang_eps : lang ic Eps ""
| lang_cls p c : cmatch ic p c = true -> lang ic (Cls p) (String c "")
| lang_cat r1 r2 w1 w2 :
    lang ic r1 w1 -> lang ic r2 w2 -> lang ic (Cat r1 r2) (w1 +:+ w2)
| lang_alt_l r1 r2 w : lang ic r1 w -> lang ic (Alt r1 r2) w
| lang_alt_r r1 r2 w : lang ic r2 w -> lang ic (Alt r1 r2) w
| lang_rep p lo hi w : reps (cmatch ic p) lo hi w -> lang ic (Rep p lo hi) w
| lang_grp r w : lang ic r w -> lang ic (Grp r) w.

End ReSem.

(** [re.fullmatch(r, s)], which the scraper does not call: the whole of
    [s] against the pattern *)
Definition fullmatch (ic : bool) (r : Re.regex) (s : string) : option Re.found :=
  Re.exec ic r s None
    (fun s' g => match s' with
                 | EmptyString => Some (s, g)
                 | String _ _ => None
                 end).

(** the test [if re.match(self.EMAIL_REGEX, email)] *)
Definition email_ok (email : string) : bool :=
  match Re.rmatch false EMAIL_REGEX email with Some _ => true | None => false end.

(** the verdict of one turn of the loop over the lines of the text, for
    the context strategy of the address detector *)
Definition context_kept (text_lines : list string) (il : nat * string) : bool :=
  negb (String.eqb (Str.strip il.2) "") && has_address_keyword (Str.strip il.2)
  && ((20 <? String.length (context_of text_lines il.1))
      && (String.length (context_of text_lines il.1) <? 500)).

(** ** Sample pages and responses *)

(** a page with nothing in it *)
Definition empty_soup : soup :=
  {| get_text := ""; a_href := []; data_email := []; data_phone := [];
     address_tags := []; class_matches := fun _ => [];
     itemtype_address := []; whatsapp_elements := [] |}.

Definition json_response : response :=
  {| status_code := 200; content_type_header := Some "application/json";
     content := "{}" |}.

Definition office_page : string :=
  "Welcome
Our office is at 12 Main Street
Springfield 62704
Open daily".

Definition media_page : soup :=
  {| get_text := "Logo: https://example.com/photo.png";
     a_href := ["/logo.png"; "https://example.com/banner.png"];
     data_email := []; data_phone := []; address_tags := [];
     class_matches := fun _ => []; itemtype_address := [];
     whatsapp_elements := [] |}.

Definition whatsapp_page (text : string) : soup :=
  {| get_text := text; a_href := []; data_email := []; data_phone := [];
     address_tags := []; class_matches := fun _ => [];
     itemtype_address := []; whatsapp_elements := [] |}.

(** a page whose link and attribute hold an address followed by other text *)
Definition junk_mail_page : soup :=
  {| get_text := "";
     a_href := ["mailto:t@u.vw junk?subject=Hi"];
     data_email := ["x@y.zz and more"]; data_phone := [];
     address_tags := []; class_matches := fun _ => [];
     itemtype_address := []; whatsapp_elements := [] |}.

(** ** The persistence sink ([save_to_excel])

    A worksheet is the list of its rows, a row the list of its cells; the
    file named by [filename] is [None] when it does not exist yet.  Python
    does not fix the order in which a [set] is iterated: [listing] stands for
    the order the interpreter happens to use. *)

Definition HEADER_ROW : list string :=
  ["URL"; "Status"; "Emails"; "Phone Numbers"; "WhatsApp Numbers";
   "Website URLs"; "Addresses"].

Section Excel.
Variable listing : gset string -> list string.

(** [" | ".join(items[:n]) if items else fallback], with [n] absent when no
    slice is taken *)
Definition joined_cell (limit : option nat) (fallback : string)
    (items : gset string) : string :=
  if bool_decide (items = ∅) then fallback
  else
    let shown := match limit with
                 | Some n => take n (listing items)
                 | None => listing items
                 end in
    Str.join " | " shown.

Definition row_data (url : string) (data : result) : list string :=
  [url;
   status data;
   joined_cell None "Not Found" (emails data);
   joined_cell None "Not Found" (phones data);
   joined_cell None "Not Found" (whatsapp data);
   joined_cell (Some 3) url (urls data);
   joined_cell (Some 2) "Not Found" (addresses data)].

(** [load_workbook] or, when the file is missing, a new workbook with the
    header row; then [ws.append(row_data)] and [wb.save]. *)
Definition save_to_excel (file : option (list (list string))) (url : string)
    (data : result) : list (list string) :=
  let ws := match file with
            | Some ws => ws
            | None => [HEADER_ROW]
            end in
  ws ++ [row_data url data].

(** the loop of [main] as far as the file is concerned: one save per page *)
Definition save_all (file : option (list (list string)))
    (pages : list (string * result)) : option (list (list string)) :=
  foldl (fun file page => Some (save_to_excel file page.1 page.2)) file pages.
End Excel.

(** ** Readings of the string operations, to compare with the code *)

(** the characters of [s] that satisfy [p], in order *)
Fixpoint keep_chars (p : ascii -> bool) (s : string) : string :=
  match s with
  | EmptyString => EmptyString
  | String c s' => if p c then String c (keep_chars p s') else keep_chars p s'
  end.

(** whether a character satisfying [p] occurs in [s] *)
Fixpoint has_char (p : ascii -> bool) (s : string) : bool :=
  match s with
  | EmptyString => false
  | String c s' => p c || has_char p s'
  end.

(** the last character of [s] *)
Fixpoint last_char (s : string) : option ascii :=
  match s with
  | EmptyString => None
  | String c EmptyString => Some c
  | String _ s' => last_char s'
  end.

(** the characters [extract_urls] strips from the end of a URL of the text *)
Definition punctuation_chars : string := ".,;:)]}>" +:+ String dquote "'".

(** the verdicts and the values of the loops of [extract_urls] *)
Definition text_url_kept (url : string) : bool :=
  negb (is_media (Str.rstrip punctuation_chars url)).

Definition href_kept (href : string) : bool :=
  if Str.startswith "http" href then negb (is_media href)
  else Str.startswith "/" href.

Definition href_value (urljoin : string -> string -> string)
    (base_domain href : string) : string :=
  if Str.startswith "http" href then href else urljoin base_domain href.

(** the capturing group of [WHATSAPP_REGEX] and the pattern of the links *)
Definition whatsapp_number_pattern : Re.regex :=
  Re.seq [Re.opt (Ascii.eqb "+"); Re.Cls nonzero_digit;
          Re.Rep Chr.is_digit 7 (Some 15)].

Definition whatsapp_link_pattern : Re.regex :=
  Re.Cat (Re.opt (Ascii.eqb "+")) (Re.Rep Chr.is_digit 7 (Some 15)).

(** [tiles ms s pos]: the matches [ms] lie in [s], which starts at offset
    [pos] of the subject, from left to right and without overlap *)
Inductive tiles : list (nat * Re.found) -> string -> nat -> Prop :=
| tiles_nil s pos : tiles [] s pos
| tiles_cons start m ms s pos rest :
    pos <= start ->
    Str.drop (start - pos) s = m.1 +:+ rest ->
    tiles ms rest (start + String.length m.1) ->
    tiles ((start, m) :: ms) s pos.

Definition html_response (body : string) : response :=
  {| status_code := 200; content_type_header := Some "text/html; charset=utf-8";
     content := body |}.

(** the texts a pattern can leave in its capturing group *)
Fixpoint captured (ic : bool) (r : Re.regex) (v : string) : Prop :=
  match r with
  | Re.Grp r1 => ReSem.lang ic r1 v
  | Re.Cat r1 r2 | Re.Alt r1 r2 => captured ic r1 v \/ captured ic r2 v
  | _ => False
  end.

(** whether every match of a pattern fills its capturing group *)
Fixpoint always_captures (r : Re.regex) : bool :=
  match r with
  | Re.Grp _ => true
  | Re.Cat r1 r2 => always_captures r1 || always_captures r2
  | Re.Alt r1 r2 => always_captures r1 && always_captures r2
  | _ => false
  end.

(** invariants of the sets the detectors build *)
Definition enough_digits (acc : gset string) : Prop :=
  forall x, x ∈ acc -> 7 <= String.length (strip_non_digits x).

Definition longer_than (n : nat) (acc : gset string) : Prop :=
  forall x, x ∈ acc -> n < String.length x.

Definition address_page : soup :=
  {| get_text := ""; a_href := []; data_email := []; data_phone := [];
     address_tags := ["123 Main St, Springfield, 62704"];
     class_matches := fun _ => []; itemtype_address := [];
     whatsapp_elements := [] |}.

Definition phone_page : soup :=
  {| get_text := "Call 5551234567 today";
     a_href := ["tel: +1 415 555 0100 "; "/about"]; data_email := [];
     data_phone := ["020 7946 0958"]; address_tags := [];
     class_matches := fun _ => []; itemtype_address := [];
     whatsapp_elements := [] |}.

(** * Properties *)

(** ** Sets built by a loop *)

Section FoldSets.
Context {B : Type}.
Variable step : gset string -> B -> gset string.
Variable keep : B -> bool.
Variable value : B -> string.
Hypothesis step_spec :
  forall acc b, step acc b = if keep b then acc ∪ {[value b]} else acc.

Lemma elem_of_foldl_add (l : list B) (acc : gset string) (x : string) :
  x ∈ foldl step acc l <->
  x ∈ acc \/ exists b, b ∈ l /\ keep b = true /\ x = value b.
Proof.
  revert acc. induction l as [|b l IH]; intros acc; simpl.
  - split; [auto|]. intros [H|(b & Hb & _)]; [done|]. inversion Hb.
  - rewrite IH, step_spec. split.
    + intros [H|(b' & Hb' & Hk & ->)].
      * destruct (keep b) eqn:Hk; [|auto].
        apply elem_of_union in H as [H|H]; [auto|].
        apply elem_of_singleton in H as ->.
        right. exists b. split; [left|done].
      * right. exists b'. split; [by right|done].
    + intros [H|(b' & Hb' & Hk & ->)].
      * left. destruct (keep b); set_solver.
      * apply elem_of_cons in Hb' as [->|Hb'].
        -- left. rewrite Hk. set_solver.
        -- right. eauto.
Qed.

Lemma foldl_add_union (l : list B) (acc : gset string) :
  foldl step acc l = acc ∪ foldl step ∅ l.
Proof.
  apply set_eq. intros x. rewrite elem_of_union, !elem_of_foldl_add.
  set_solver.
Qed.
End FoldSets.

(** ** The phone filter *)

Lemma clean_phone_step_spec (cleaned : gset string) (num : string) :
  clean_phone_step cleaned num =
  if plausible num then cleaned ∪ {[normalize_spaces num]} else cleaned.
Proof.
  unfold clean_phone_step, plausible.
  repeat match goal with |- context [if ?b then _ else _] =>
    destruct b eqn:?; simpl; try reflexivity; try discriminate end.
Qed.

Lemma elem_of_clean_phone_numbers (raw : list string) (x : string) :
  x ∈ clean_phone_numbers raw <->
  exists num, num ∈ raw /\ plausible num = true /\ x = normalize_spaces num.
Proof.
  unfold clean_phone_numbers.
  rewrite (elem_of_foldl_add _ _ _ clean_phone_step_spec). set_solver.
Qed.

Lemma plausible_digit_count (num : string) :
  plausible num = true ->
  7 <= String.length (strip_non_digits (normalize_spaces num)) <= 15.
Proof.
  unfold plausible. intros H.
  do 3 (apply andb_prop in H as [H _]).
  apply negb_true_iff, orb_false_elim in H as [Hlo Hhi].
  apply Nat.ltb_ge in Hlo, Hhi. lia.
Qed.

(** C4. Length bounds of the phone filter: a raw candidate whose digits-only
    form has fewer than 7 or more than 15 digits adds nothing to the set in
    its turn of the loop, and its whitespace-normalized form is a member
    neither of the output of [clean_phone_numbers], whatever the list of
    candidates, nor of the output of [extract_phones], whose three sources
    (free text, [tel:] links, [data-phone] attributes) all go through the
    same filter. *)
Theorem phone_length_bounds (num : string) :
  String.length (strip_non_digits (normalize_spaces num)) < 7 \/
  15 < String.length (strip_non_digits (normalize_spaces num)) ->
  (forall cleaned, clean_phone_step cleaned num = cleaned) /\
  (forall raw, normalize_spaces num ∉ clean_phone_numbers raw) /\
  (forall sp, normalize_spaces num ∉ extract_phones sp).
Proof.
  intros Hlen.
  assert (Hout : forall raw, normalize_spaces num ∉ clean_phone_numbers raw).
  { intros raw Hin.
    apply elem_of_clean_phone_numbers in Hin as (num' & _ & Hok & Heq).
    apply plausible_digit_count in Hok. rewrite <- Heq in Hok. lia. }
  split; [|split].
  - intros cleaned. rewrite clean_phone_step_spec.
    destruct (plausible num) eqn:Hok; [|done].
    apply plausible_digit_count in Hok. lia.
  - exact Hout.
  - intros sp. unfold extract_phones. apply Hout.
Qed.

Lemma phone_length_bounds_witness :
  String.length (strip_non_digits (normalize_spaces "555-123")) = 6 /\
  normalize_spaces "555-123" ∉ clean_phone_numbers ["555-123"; "5551234567"].
Proof.
  split; [vm_compute; reflexivity|].
  apply (phone_length_bounds "555-123").
  left. vm_compute. lia.
Defined.

(** C5. The examples of the phone filter: the candidates 1984 and 2001,
    1699999999 and 0000123456789 are skipped in their turn of the loop, the
    candidate 5551234567 is added in its whitespace-normalized form, which
    is itself, and the five candidates together leave exactly that one in
    the output. *)
Theorem phone_filter_examples :
  (forall cleaned, clean_phone_step cleaned "1984" = cleaned) /\
  (forall cleaned, clean_phone_step cleaned "2001" = cleaned) /\
  (forall cleaned, clean_phone_step cleaned "1699999999" = cleaned) /\
  (forall cleaned, clean_phone_step cleaned "0000123456789" = cleaned) /\
  (forall cleaned,
     clean_phone_step cleaned "5551234567" = cleaned ∪ {["5551234567"]}) /\
  clean_phone_numbers
    ["1984"; "2001"; "1699999999"; "0000123456789"; "5551234567"]
  = {["5551234567"]}.
Proof.
  assert (E1 : plausible "1984" = false) by (vm_compute; reflexivity).
  assert (E2 : plausible "2001" = false) by (vm_compute; reflexivity).
  assert (E3 : plausible "1699999999" = false) by (vm_compute; reflexivity).
  assert (E4 : plausible "0000123456789" = false) by (vm_compute; reflexivity).
  assert (E5 : plausible "5551234567" = true) by (vm_compute; reflexivity).
  assert (N5 : normalize_spaces "5551234567" = "5551234567")
    by (vm_compute; reflexivity).
  repeat split; try intros cleaned; unfold clean_phone_numbers; simpl foldl;
    rewrite ?clean_phone_step_spec, ?E1, ?E2, ?E3, ?E4, ?E5, ?N5;
    rewrite ?union_empty_l_L; reflexivity.
Qed.

(** C9. The phone filter deduplicates by the whitespace-normalized string
    and not by the digits. The output is the set of the normalized forms of
    the plausible candidates, so two candidates with the same normalized
    form leave one member: three spellings of +1 415 555 0100 that differ in
    their white space are merged. Candidates with the same digits but other
    separators are not: +1 415 555 0100 and 14155550100 have the same
    digits-only form, and both normalized strings are members of the output,
    which has two elements. *)
Theorem phone_dedup_keeps_separator_styles :
  (forall raw x,
     x ∈ clean_phone_numbers raw <->
     exists num, num ∈ raw /\ plausible num = true /\
                 x = normalize_spaces num) /\
  (forall n1 n2,
     normalize_spaces n1 = normalize_spaces n2 -> plausible n1 = true ->
     clean_phone_numbers [n1; n2] = {[normalize_spaces n1]}) /\
  clean_phone_numbers
    [" +1   415 555 0100"; "+1 415" +:+ String "009" "555 0100 ";
     "+1 415 555 0100"]
  = {["+1 415 555 0100"]} /\
  strip_non_digits (normalize_spaces "+1 415 555 0100")
  = strip_non_digits (normalize_spaces "14155550100") /\
  clean_phone_numbers ["+1 415 555 0100"; "14155550100"]
  = {["+1 415 555 0100"; "14155550100"]} /\
  "+1 415 555 0100" ∈ clean_phone_numbers ["+1 415 555 0100"; "14155550100"] /\
  "14155550100" ∈ clean_phone_numbers ["+1 415 555 0100"; "14155550100"] /\
  size (clean_phone_numbers ["+1 415 555 0100"; "14155550100"]) = 2.
Proof.
  assert (Ea : plausible "+1 415 555 0100" = true) by (vm_compute; reflexivity).
  assert (Eb : plausible "14155550100" = true) by (vm_compute; reflexivity).
  assert (Na : normalize_spaces "+1 415 555 0100" = "+1 415 555 0100")
    by (vm_compute; reflexivity).
  assert (Nb : normalize_spaces "14155550100" = "14155550100")
    by (vm_compute; reflexivity).
  assert (Hset : clean_phone_numbers ["+1 415 555 0100"; "14155550100"]
                 = {["+1 415 555 0100"; "14155550100"]}).
  { unfold clean_phone_numbers. simpl foldl.
    rewrite !clean_phone_step_spec, Ea, Eb, Na, Nb.
    by rewrite union_empty_l_L. }
  assert (Hsame : forall n1 n2,
            normalize_spaces n1 = normalize_spaces n2 -> plausible n1 = true ->
            clean_phone_numbers [n1; n2] = {[normalize_spaces n1]}).
  { intros n1 n2 Hn H1.
    assert (H2 : plausible n2 = true)
      by (unfold plausible in *; by rewrite <- Hn).
    unfold clean_phone_numbers. simpl foldl.
    rewrite !clean_phone_step_spec, H1, H2, <- Hn. set_solver. }
  split; [apply elem_of_clean_phone_numbers|]. split; [exact Hsame|].
  split; [vm_compute; reflexivity|].
  split; [vm_compute; reflexivity|]. rewrite Hset.
  split; [done|]. split; [set_solver|]. split; [set_solver|].
  rewrite size_union by set_solver. by rewrite !size_singleton.
Qed.

Lemma phone_dedup_keeps_separator_styles_witness :
  normalize_spaces " +1   415 555 0100" = normalize_spaces "+1 415 555 0100 " /\
  clean_phone_numbers [" +1   415 555 0100"; "+1 415 555 0100 "]
  = {["+1 415 555 0100"]}.
Proof.
  split; [vm_compute; reflexivity|].
  apply (proj1 (proj2 phone_dedup_keeps_separator_styles)
           " +1   415 555 0100" "+1 415 555 0100 ");
    vm_compute; reflexivity.
Defined.

(** C10. The year rule of the phone filter is unreachable. A candidate that
    passes the length rule has at least 7 digits, so the test for four digits
    is false for it; the loop body, and with it the whole filter, equals the
    variant without the year rule on every input; and a candidate of four
    digits is skipped by the length rule of that variant. *)
Theorem year_rule_unreachable :
  (forall num,
     let digits_only := strip_non_digits (normalize_spaces num) in
     (String.length digits_only <? 7) || (15 <? String.length digits_only)
     = false ->
     (String.length digits_only =? 4)
     && Str.startswith_any ["19"; "20"] digits_only = false) /\
  (forall cleaned num,
     clean_phone_step cleaned num = clean_phone_step_no_year cleaned num) /\
  (forall raw, clean_phone_numbers raw = clean_phone_numbers_no_year raw) /\
  (forall cleaned num,
     String.length (strip_non_digits (normalize_spaces num)) = 4 ->
     clean_phone_step_no_year cleaned num = cleaned).
Proof.
  assert (Hdead : forall n : nat,
            (n <? 7) || (15 <? n) = false -> (n =? 4) = false).
  { intros n H. apply orb_false_elim in H as [H _].
    apply Nat.ltb_ge in H. apply Nat.eqb_neq. lia. }
  assert (Hstep : forall cleaned num,
            clean_phone_step cleaned num = clean_phone_step_no_year cleaned num).
  { intros cleaned num. unfold clean_phone_step, clean_phone_step_no_year.
    destruct (_ || _) eqn:Hlen; [done|].
    by rewrite (Hdead _ Hlen). }
  split; [|split; [exact Hstep|split]].
  - intros num digits_only Hlen. subst digits_only.
    by rewrite (Hdead _ Hlen).
  - intros raw. unfold clean_phone_numbers, clean_phone_numbers_no_year.
    generalize (∅ : gset string).
    induction raw as [|num raw IH]; intros acc; simpl; [done|].
    by rewrite Hstep, IH.
  - intros cleaned num H4. unfold clean_phone_step_no_year. by rewrite H4.
Qed.

Lemma year_rule_unreachable_witness :
  String.length (strip_non_digits (normalize_spaces "1984")) = 4 /\
  clean_phone_step_no_year ∅ "1984" = ∅ /\
  clean_phone_numbers ["1984"; "5551234567"]
  = clean_phone_numbers_no_year ["1984"; "5551234567"].
Proof.
  split; [vm_compute; reflexivity|]. split.
  - apply (proj2 (proj2 (proj2 year_rule_unreachable)) ∅ "1984").
    vm_compute; reflexivity.
  - apply (proj1 (proj2 (proj2 year_rule_unreachable))).
Defined.

(** ** The aggregator *)

Section AggregatorFacts.
Variable urlparse : string -> string * string.
Variable urljoin : string -> string -> string.
Variable parse : string -> soup.
Variable session_get : string -> fetched.
Variable post_fetch_error : response -> string -> option exn.

Let scrape :=
  scrape_contact_page urlparse urljoin parse session_get post_fetch_error.

(** C1. When the fetch raises, no document is parsed and the result is the
    empty record: the five sets are empty, and the status is the one of the
    first [except] clause that takes the exception: timeout for the timeout
    classes, connection_error for a connection error, request_error for
    any other exception of the HTTP library, unexpected_error for the
    rest. *)
Theorem scrape_failure_is_empty (url : string) (e : exn) :
  session_get (normalize_url url) = Raised e ->
  emails (scrape url) = ∅ /\ phones (scrape url) = ∅ /\
  whatsapp (scrape url) = ∅ /\ urls (scrape url) = ∅ /\
  addresses (scrape url) = ∅ /\
  (is_Timeout e = true -> status (scrape url) = "timeout") /\
  (e = ConnectionError -> status (scrape url) = "connection_error") /\
  (e = RequestException -> status (scrape url) = "request_error") /\
  (e = OtherException -> status (scrape url) = "unexpected_error").
Proof.
  intros Hget. subst scrape. unfold scrape_contact_page. rewrite Hget.
  repeat split; simpl; unfold handler_status.
  - by intros ->.
  - by intros ->.
  - by intros ->.
  - by intros ->.
Qed.

End AggregatorFacts.

Lemma scrape_failure_is_empty_witness :
  let r := scrape_contact_page Urllib.urlparse Urllib.urljoin
             (fun _ => empty_soup) (fun _ => Raised Timeout)
             (fun _ _ => None) "example.com" in
  emails r = ∅ /\ status r = "timeout".
Proof.
  pose proof (scrape_failure_is_empty Urllib.urlparse Urllib.urljoin
                (fun _ => empty_soup) (fun _ => Raised Timeout)
                (fun _ _ => None) "example.com" Timeout eq_refl) as H.
  split; [apply H|]. apply H. reflexivity.
Defined.



(** ** The context strategy of the address detector *)

Lemma address_context_step_spec (text_lines : list string)
    (acc : gset string) (il : nat * string) :
  address_context_step text_lines acc il =
  if context_kept text_lines il
  then acc ∪ {[context_of text_lines il.1]} else acc.
Proof.
  destruct il as [i line]. unfold address_context_step, context_kept. simpl.
  destruct (negb _ && has_address_keyword _); simpl; [|done].
  by destruct (_ && _).
Qed.

Lemma list_slice_lookup {A} (l : list A) (i k : nat) :
  list_slice (i - 1) (Nat.min (length l) (i + 4)) l !! k =
  if decide (i - 1 + k <= i + 3) then l !! (i - 1 + k) else None.
Proof.
  unfold list_slice.
  destruct (decide (k < Nat.min (length l) (i + 4) - (i - 1))) as [Hk|Hk].
  - rewrite lookup_take_lt, lookup_drop by done.
    rewrite decide_True by lia. done.
  - rewrite lookup_take_ge by lia. case_decide; [|done].
    symmetry. apply lookup_ge_None_2. lia.
Qed.



(** ** Media links and the URL detector *)

(** C2, on the code. A relative anchor target is added to the URL set as
    soon as it is resolved, without the test on media extensions that the
    text scan and the absolute anchor targets go through: on a page with
    the anchor /logo.png the resolved target, which ends in .png, is in the
    output, while the .png URLs of the text and of the absolute anchor are
    left out. *)
Theorem relative_media_link_kept :
  (forall urljoin base_domain found rest,
     href_url_step urljoin base_domain found (String "/" rest)
     = found ∪ {[urljoin base_domain (String "/" rest)]}) /\
  is_media "https://example.com/logo.png" = true /\
  extract_urls Urllib.urlparse Urllib.urljoin media_page
    "https://example.com/contact"
  = {["https://example.com"; "https://example.com/logo.png"]}.
Proof.
  split; [|split].
  - intros urljoin base_domain found rest. unfold href_url_step.
    destruct (Str.startswith "http" _) eqn:Hhttp; [discriminate Hhttp|].
    reflexivity.
  - vm_compute. reflexivity.
  - vm_compute. reflexivity.
Qed.

(** ** The keyword strategy of the WhatsApp detector *)

(** C3, on the code. The pattern of the keyword strategy asks for a first
    digit from 1 to 9 and then 7 to 15 further digits, so a keyword followed
    by a number of 7 digits is not matched and nothing is retained for it,
    whereas a number of 8 digits is; the later test on at least 7 digits
    never rejects a match. *)
Theorem whatsapp_seven_digits_missed :
  Re.findall true WHATSAPP_REGEX "WhatsApp: 1234567" = [] /\
  whatsapp_from_text ∅ "WhatsApp: 1234567" = ∅ /\
  extract_whatsapp (whatsapp_page "WhatsApp: 1234567") = ∅ /\
  extract_whatsapp (whatsapp_page "WhatsApp: 12345678") = {["12345678"]}.
Proof. repeat split; vm_compute; reflexivity. Qed.

(** ** The matcher and the words of a pattern *)

Module ReFacts.
Import Re ReSem.

Lemma app_cons c (w s : string) : String c w +:+ s = String c (w +:+ s).
Proof. reflexivity. Qed.

Lemma app_nil_r (s : string) : s +:+ "" = s.
Proof. induction s as [|c s IH]; [done|]. by rewrite app_cons, IH. Qed.

Lemma app_assoc (a b c : string) : (a +:+ b) +:+ c = a +:+ (b +:+ c).
Proof. induction a as [|x a IH]; [done|]. by rewrite !app_cons, IH. Qed.

Lemma length_app (a b : string) :
  String.length (a +:+ b) = String.length a + String.length b.
Proof.
  induction a as [|x a IH]; [done|]. rewrite app_cons. simpl. by rewrite IH.
Qed.

Lemma take_app_length (w s : string) :
  Str.take (String.length (w +:+ s) - String.length s) (w +:+ s) = w.
Proof.
  rewrite length_app.
  replace (String.length w + String.length s - String.length s)
    with (String.length w) by lia.
  induction w as [|c w IH]; simpl; [by destruct s|by rewrite IH].
Qed.

Section Matcher.
Context {A : Type}.
Variable ic : bool.

(** what the matcher consumed is a word of the pattern *)
Lemma rep_sound p lo hi s (k : string -> option A) x :
  rep ic p lo hi s k = Some x ->
  exists w s', s = w +:+ s' /\ reps (cmatch ic p) lo hi w /\ k s' = Some x.
Proof.
  revert lo hi. induction s as [|c s IH]; intros lo hi; simpl.
  - destruct lo; [|done]. intros Hk. exists "", "". eauto using reps_nil.
  - assert (Hstop :
      match lo with 0 => k (String c s) | S _ => None end = Some x ->
      exists w s', String c s = w +:+ s' /\
                   reps (cmatch ic p) lo hi w /\ k s' = Some x).
    { destruct lo; [|done]. intros Hk.
      exists "", (String c s). eauto using reps_nil. }
    destruct (cmatch ic p c && may_repeat hi) eqn:Hc; [|done].
    apply andb_prop in Hc as [Hc Hm].
    destruct (rep ic p (pred lo) (pred <$> hi) s k) as [y|] eqn:Hrec;
      [|done].
    intros [= ->]. apply IH in Hrec as (w & s' & -> & Hw & Hk).
    exists (String c w), s'. eauto using reps_cons.
Qed.

Lemma rep_zero_some p hi s (k : string -> option A) :
  is_Some (k s) -> is_Some (rep ic p 0 hi s k).
Proof.
  intros Hk. destruct s as [|c s]; simpl; [done|].
  destruct (_ && _); [|done]. by destruct (rep _ _ _ _ _ _).
Qed.

(** a word of the pattern in front of a rest the continuation accepts
    makes the matcher succeed *)
Lemma rep_complete p lo hi w s' (k : string -> option A) :
  reps (cmatch ic p) lo hi w -> is_Some (k s') ->
  is_Some (rep ic p lo hi (w +:+ s') k).
Proof.
  intros Hw Hk. induction Hw as [hi|lo hi c w Hc Hm Hw IH].
  - by apply rep_zero_some.
  - rewrite app_cons. simpl. rewrite Hc, Hm. simpl.
    destruct IH as [y ->]. done.
Qed.

Lemma exec_sound r s g (k : string -> option string -> option A) x :
  exec ic r s g k = Some x ->
  exists w s' g', s = w +:+ s' /\ lang ic r w /\ k s' g' = Some x.
Proof.
  revert s g k x.
  induction r as [|p|r1 IH1 r2 IH2|r1 IH1 r2 IH2|p lo hi|r IH];
    intros s g k x; simpl.
  - intros Hk. exists "", s, g. eauto using lang_eps.
  - destruct s as [|c s]; [done|].
    destruct (cmatch ic p c) eqn:Hc; [|done].
    intros Hk. exists (String c ""), s, g. eauto using lang_cls.
  - intros H. apply IH1 in H as (w1 & s1 & g1 & -> & Hw1 & H).
    apply IH2 in H as (w2 & s2 & g2 & -> & Hw2 & H).
    exists (w1 +:+ w2), s2, g2. rewrite app_assoc. eauto using lang_cat.
  - destruct (exec ic r1 s g k) as [y|] eqn:H1.
    + intros [= ->]. apply IH1 in H1 as (w & s' & g' & -> & Hw & H).
      exists w, s', g'. eauto using lang_alt_l.
    + intros H2. apply IH2 in H2 as (w & s' & g' & -> & Hw & H).
      exists w, s', g'. eauto using lang_alt_r.
  - intros H. apply rep_sound in H as (w & s' & -> & Hw & H).
    exists w, s', g. eauto using lang_rep.
  - intros H. apply IH in H as (w & s' & g' & -> & Hw & H).
    eexists w, s', _. eauto using lang_grp.
Qed.

Lemma exec_complete r w :
  lang ic r w ->
  forall s' g (k : string -> option string -> option A),
    (forall g', is_Some (k s' g')) -> is_Some (exec ic r (w +:+ s') g k).
Proof.
  induction 1 as [|p c Hc|r1 r2 w1 w2 _ IH1 _ IH2|r1 r2 w _ IH|r1 r2 w _ IH
                  |p lo hi w Hw|r w _ IH]; intros s' g k Hk; simpl.
  - apply Hk.
  - by rewrite Hc.
  - rewrite app_assoc. apply IH1. intros g'. by apply IH2.
  - destruct (IH s' g k Hk) as [y ->]. done.
  - destruct (exec ic r1 _ g k); [done|]. by apply IH.
  - apply rep_complete; [done|apply Hk].
  - apply IH. intros g'. apply Hk.
Qed.
End Matcher.

Lemma try_at_lang ic r s adv m :
  try_at ic r s adv = Some m -> lang ic r m.1.
Proof.
  unfold try_at. intros H.
  apply exec_sound in H as (w & s' & g' & -> & Hw & H).
  destruct (adv && _); [done|]. injection H as <-. simpl.
  by rewrite take_app_length.
Qed.

(** [re.match] succeeds on every word of the pattern *)
Lemma rmatch_complete ic r w : lang ic r w -> is_Some (rmatch ic r w).
Proof.
  intros Hw. unfold rmatch, try_at.
  rewrite <- (app_nil_r w) at 1.
  apply exec_complete; [done|]. intros g'. simpl. done.
Qed.

(** every match of a scan is a word of the pattern *)
Lemma scan_lang ic r s pos skip pm :
  pm ∈ scan ic r s pos skip -> lang ic r pm.2.1.
Proof.
  revert pos skip. induction s as [|c s IH]; intros pos skip.
  - destruct skip; simpl; [|by intros ?%elem_of_nil].
    destruct (try_at ic r "" false) as [m|] eqn:H1;
      [|by intros ?%elem_of_nil].
    destruct (Nat.eqb _ 0).
    + intros [->|Hin]%elem_of_cons; [by apply try_at_lang in H1|].
      destruct (try_at ic r "" true) as [m'|] eqn:H2;
        [|by apply elem_of_nil in Hin].
      apply elem_of_cons in Hin as [->|Hin]; [by apply try_at_lang in H2|].
      by apply elem_of_nil in Hin.
    + intros [->|Hin]%elem_of_cons; [by apply try_at_lang in H1|].
      by apply elem_of_nil in Hin.
  - destruct skip; simpl; [|apply IH].
    destruct (try_at ic r (String c s) false) as [m|] eqn:H1; [|apply IH].
    destruct (Nat.eqb _ 0).
    + intros [->|Hin]%elem_of_cons; [by apply try_at_lang in H1|].
      destruct (try_at ic r (String c s) true) as [m'|] eqn:H2;
        [|by apply IH in Hin].
      apply elem_of_cons in Hin as [->|Hin]; [by apply try_at_lang in H2|].
      by apply IH in Hin.
    + intros [->|Hin]%elem_of_cons; [by apply try_at_lang in H1|].
      by apply IH in Hin.
Qed.

End ReFacts.

(** ** The email detector *)

Lemma mailto_step_spec (acc : gset string) (href : string) :
  mailto_step acc href =
  if Str.startswith "mailto:" href && email_ok (mailto_target href)
  then acc ∪ {[mailto_target href]} else acc.
Proof.
  unfold mailto_step, email_ok.
  destruct (Str.startswith _ _); simpl; [|done].
  by destruct (Re.rmatch _ _ _).
Qed.

Lemma data_email_step_spec (acc : gset string) (email : string) :
  data_email_step acc email =
  if email_ok email then acc ∪ {[email]} else acc.
Proof. unfold data_email_step, email_ok. by destruct (Re.rmatch _ _ _). Qed.

Lemma elem_of_extract_emails (sp : soup) (e : string) :
  e ∈ extract_emails sp <->
  e ∈ Re.findall true EMAIL_REGEX (get_text sp) \/
  (exists href, href ∈ a_href sp /\ Str.startswith "mailto:" href = true /\
                email_ok (mailto_target href) = true /\ e = mailto_target href) \/
  (exists v, v ∈ data_email sp /\ email_ok v = true /\ e = v).
Proof.
  unfold extract_emails.
  rewrite (elem_of_foldl_add _ _ _ data_email_step_spec).
  rewrite (elem_of_foldl_add _ _ _ mailto_step_spec).
  rewrite elem_of_union, elem_of_list_to_set.
  split.
  - intros [[[H|H]|(href & Hin & Hk & ->)]|(v & Hin & Hk & ->)].
    + set_solver.
    + by left.
    + apply andb_prop in Hk as [H1 H2]. right; left. eauto.
    + right; right. eauto.
  - intros [H|[(href & Hin & H1 & H2 & ->)|(v & Hin & Hk & ->)]].
    + left; left; by right.
    + left; right. exists href. by rewrite H1, H2.
    + right. eauto.
Qed.

(** a word of the pattern is accepted by [fullmatch] *)
Lemma lang_fullmatch ic r w : ReSem.lang ic r w -> is_Some (fullmatch ic r w).
Proof.
  intros Hw. unfold fullmatch. rewrite <- (ReFacts.app_nil_r w) at 1.
  apply ReFacts.exec_complete; [done|]. intros g'. done.
Qed.

(** C8, on the code. The test on a candidate taken from a [mailto:] link or
    from a [data-email] attribute is [re.match], which looks for the pattern
    at the head of the candidate only, and the candidate is then stored
    whole: the output is made of the matches of the text scan and of the
    candidates that begin with a match. So the attribute value
    [x@y.zz and more] and the link target [t@u.vw junk], neither of them a
    word of the email pattern, are both in the output, whereas the text
    scan on the same string reports the address alone. *)
Theorem email_candidate_checked_at_its_head :
  (forall sp e,
     e ∈ extract_emails sp <->
     e ∈ Re.findall true EMAIL_REGEX (get_text sp) \/
     (exists href, href ∈ a_href sp /\ Str.startswith "mailto:" href = true /\
                   email_ok (mailto_target href) = true /\
                   e = mailto_target href) \/
     (exists v, v ∈ data_email sp /\ email_ok v = true /\ e = v)) /\
  ~ ReSem.lang false EMAIL_REGEX "x@y.zz and more" /\
  Re.rmatch false EMAIL_REGEX "x@y.zz and more" = Some ("x@y.zz", None) /\
  Re.findall true EMAIL_REGEX "x@y.zz and more" = ["x@y.zz"] /\
  mailto_target "mailto:t@u.vw junk?subject=Hi" = "t@u.vw junk" /\
  ~ ReSem.lang false EMAIL_REGEX "t@u.vw junk" /\
  Re.rmatch false EMAIL_REGEX "t@u.vw junk" = Some ("t@u.vw", None) /\
  extract_emails junk_mail_page = {["t@u.vw junk"; "x@y.zz and more"]}.
Proof.
  assert (Hno : forall w, fullmatch false EMAIL_REGEX w = None ->
                          ~ ReSem.lang false EMAIL_REGEX w).
  { intros w Hw Hl. apply lang_fullmatch in Hl as [m Hm]. congruence. }
  split; [apply elem_of_extract_emails|].
  split; [apply Hno; vm_compute; reflexivity|].
  split; [vm_compute; reflexivity|]. split; [vm_compute; reflexivity|].
  split; [vm_compute; reflexivity|].
  split; [apply Hno; vm_compute; reflexivity|].
  split; vm_compute; reflexivity.
Qed.

(** * Further properties of the scraper *)

(** ** More on the aggregator *)

Lemma normalize_url_prefixed (url : string) :
  Str.startswith_any ["http://"; "https://"] (normalize_url url) = true.
Proof.
  unfold normalize_url.
  destruct (Str.startswith_any _ url) eqn:H; simpl; [done|].
  reflexivity.
Qed.

Lemma handler_status_not_success (e : exn) : handler_status e <> "success".
Proof. by destruct e. Qed.

Section AggregatorMore.
Variable urlparse : string -> string * string.
Variable urljoin : string -> string -> string.
Variable parse : string -> soup.
Variable session_get : string -> fetched.
Variable post_fetch_error : response -> string -> option exn.

Let scrape :=
  scrape_contact_page urlparse urljoin parse session_get post_fetch_error.

Lemma scrape_empty_or_success (url : string) :
  scrape url = _empty_result (Some (status (scrape url))) \/
  status (scrape url) = "success".
Proof.
  subst scrape. unfold scrape_contact_page.
  destruct (session_get _) as [e|resp]; [by left|].
  destruct (negb _); [by left|]. destruct (negb _); [by left|].
  destruct (post_fetch_error _ _); [by left|by right].
Qed.

(** X1. The status of a result is success exactly when the fetch returned
    a response with code 200 whose content type contains text/html and
    nothing was raised while the page was parsed and scanned; a result with
    any other status is the empty record, with all five sets empty; and the
    status is always one of success, failed, timeout, connection_error,
    request_error and unexpected_error. *)
Theorem scrape_success_iff (url : string) :
  (status (scrape url) = "success" <->
   exists resp, session_get (normalize_url url) = Returned resp /\
                status_code resp = 200 /\
                Str.contains "text/html"
                  (default "" (content_type_header resp)) = true /\
                post_fetch_error resp (normalize_url url) = None) /\
  (status (scrape url) <> "success" ->
   scrape url = _empty_result (Some (status (scrape url)))) /\
  status (scrape url) ∈ ["success"; "failed"; "timeout"; "connection_error";
                         "request_error"; "unexpected_error"].
Proof.
  assert (Hst : forall e, handler_status e
                  ∈ ["success"; "failed"; "timeout"; "connection_error";
                     "request_error"; "unexpected_error"])
    by (intros e; destruct e; vm_compute; set_solver).
  subst scrape. unfold scrape_contact_page.
  destruct (session_get (normalize_url url)) as [e|resp] eqn:Hget.
  - split; [|split]; [|done|apply Hst].
    split; [|by intros (? & [=] & _)].
    intros H. by apply handler_status_not_success in H.
  - destruct (status_code resp =? 200) eqn:Hcode; simpl.
    + apply Nat.eqb_eq in Hcode.
      destruct (Str.contains _ _) eqn:Hct; simpl.
      * destruct (post_fetch_error resp (normalize_url url)) as [e|] eqn:Herr.
        -- split; [|split]; [|done|apply Hst].
           split; [intros H; by apply handler_status_not_success in H|].
           intros (resp' & [= <-] & _ & _ & H). congruence.
        -- split; [|split]; [|done|set_solver].
           split; [eauto 10|done].
      * split; [|split]; [|done|set_solver].
        split; [done|]. intros (resp' & [= <-] & _ & H & _). congruence.
    + apply Nat.eqb_neq in Hcode.
      split; [|split]; [|done|set_solver].
      split; [done|]. intros (resp' & [= <-] & H & _). done.
Qed.

(** X2. The URL typed by the user is normalized before the fetch: the
    normalized URL starts with http:// or https://, normalizing twice
    changes nothing, and scraping a URL or its normalized form gives the
    same result. *)
Theorem scrape_normalizes_url (url : string) :
  Str.startswith_any ["http://"; "https://"] (normalize_url url) = true /\
  normalize_url (normalize_url url) = normalize_url url /\
  scrape (normalize_url url) = scrape url.
Proof.
  assert (Hidem : normalize_url (normalize_url url) = normalize_url url).
  { unfold normalize_url at 1. by rewrite normalize_url_prefixed. }
  split; [apply normalize_url_prefixed|]. split; [done|].
  subst scrape. unfold scrape_contact_page. by rewrite Hidem.
Qed.
End AggregatorMore.


(** ** More on the URL detector *)

Lemma text_url_step_spec (acc : gset string) (url : string) :
  text_url_step acc url =
  if text_url_kept url then acc ∪ {[Str.rstrip punctuation_chars url]} else acc.
Proof. reflexivity. Qed.

Lemma href_url_step_spec (urljoin : string -> string -> string)
    (base_domain : string) (acc : gset string) (href : string) :
  href_url_step urljoin base_domain acc href =
  if href_kept href then acc ∪ {[href_value urljoin base_domain href]} else acc.
Proof.
  unfold href_url_step, href_kept, href_value.
  by destruct (Str.startswith "http" href).
Qed.

Lemma elem_of_extract_urls urlparse urljoin (sp : soup) (base_url x : string) :
  x ∈ extract_urls urlparse urljoin sp base_url <->
  x = base_domain_of urlparse base_url \/
  (exists url, url ∈ Re.findall false URL_REGEX (get_text sp) /\
               text_url_kept url = true /\
               x = Str.rstrip punctuation_chars url) \/
  (exists href, href ∈ a_href sp /\ href_kept href = true /\
                x = href_value urljoin (base_domain_of urlparse base_url) href).
Proof.
  unfold extract_urls.
  rewrite (elem_of_foldl_add _ _ _ (href_url_step_spec urljoin _)).
  rewrite (elem_of_foldl_add _ _ _ text_url_step_spec).
  rewrite elem_of_union, elem_of_singleton. set_solver.
Qed.

(** X3. The URL set is seeded with the root of the site, scheme and host of
    the page URL: the root is always a member, so the set is never empty,
    and a successful scrape always reports at least one URL. *)
Theorem urls_seeded_with_site_root urlparse urljoin (sp : soup) (base_url : string) :
  base_domain_of urlparse base_url ∈ extract_urls urlparse urljoin sp base_url /\
  extract_urls urlparse urljoin sp base_url <> ∅ /\
  (forall parse session_get post_fetch_error url,
     let r := scrape_contact_page urlparse urljoin parse session_get
                post_fetch_error url in
     status r = "success" ->
     urls r <> ∅).
Proof.
  assert (Hin : forall sp' b, base_domain_of urlparse b
                          ∈ extract_urls urlparse urljoin sp' b).
  { intros sp' b. apply elem_of_extract_urls. by left. }
  split; [apply Hin|]. split.
  - intros H. specialize (Hin sp base_url). rewrite H in Hin. set_solver.
  - intros parse session_get post_fetch_error url r. subst r.
    unfold scrape_contact_page.
    destruct (session_get _) as [e|resp]; simpl.
    + intros H. by destruct e.
    + destruct (negb _); [done|]. destruct (negb _); [done|].
      destruct (post_fetch_error _ _) as [e|]; simpl;
        [intros H; by destruct e|].
      intros _ H. specialize (Hin (parse (content resp)) (normalize_url url)).
      rewrite H in Hin. set_solver.
Qed.

(** X4. A member of the URL set that ends in a media extension is the
    site root itself or comes from a relative anchor target: the URLs of the
    text and the absolute anchor targets never contribute one. *)
Theorem media_urls_only_from_root_or_relative urlparse urljoin
    (sp : soup) (base_url x : string) :
  x ∈ extract_urls urlparse urljoin sp base_url ->
  is_media x = true ->
  x = base_domain_of urlparse base_url \/
  exists href, href ∈ a_href sp /\ Str.startswith "http" href = false /\
               Str.startswith "/" href = true /\
               x = urljoin (base_domain_of urlparse base_url) href.
Proof.
  intros Hin Hmedia.
  apply elem_of_extract_urls in Hin
    as [->|[(url & _ & Hk & ->)|(href & Hin & Hk & ->)]].
  - by left.
  - unfold text_url_kept in Hk. by rewrite Hmedia in Hk.
  - right. exists href. unfold href_kept in Hk. unfold href_value in *.
    destruct (Str.startswith "http" href); [|done].
    by rewrite Hmedia in Hk.
Qed.

(** ** More on the phone filter *)

Lemma clean_phone_numbers_app_aux (l1 l2 : list string) :
  clean_phone_numbers (l1 ++ l2) = clean_phone_numbers l1 ∪ clean_phone_numbers l2.
Proof.
  unfold clean_phone_numbers. rewrite foldl_app.
  apply (foldl_add_union _ _ _ clean_phone_step_spec).
Qed.

(** X5. The output of the phone filter depends on the candidates only, not
    on their order or number: the output for two lists put together is the
    union of the two outputs, and two lists with the same members give the
    same output. *)
Theorem clean_phone_numbers_by_candidates (l1 l2 : list string) :
  clean_phone_numbers (l1 ++ l2)
  = clean_phone_numbers l1 ∪ clean_phone_numbers l2 /\
  ((forall num, num ∈ l1 <-> num ∈ l2) ->
   clean_phone_numbers l1 = clean_phone_numbers l2).
Proof.
  split; [apply clean_phone_numbers_app_aux|].
  intros H. apply set_eq. intros x.
  rewrite !elem_of_clean_phone_numbers. set_solver.
Qed.

(** X6. Every number in the output of the phone filter passes all its
    rules: its digits-only form has 7 to 15 digits, does not start with
    0000, 1111, 2222 or 3333, and, when it has 10 digits or more, does not
    start with 16, 17 or 20. *)
Theorem phone_output_rules (raw : list string) (x : string) :
  x ∈ clean_phone_numbers raw ->
  let digits_only := strip_non_digits x in
  7 <= String.length digits_only <= 15 /\
  Str.startswith_any ["0000"; "1111"; "2222"; "3333"] digits_only = false /\
  (10 <= String.length digits_only ->
   Str.startswith_any ["16"; "17"; "20"] digits_only = false).
Proof.
  intros Hin digits_only. subst digits_only.
  apply elem_of_clean_phone_numbers in Hin as (num & _ & Hok & ->).
  pose proof (plausible_digit_count _ Hok) as Hlen.
  unfold plausible in Hok.
  apply andb_prop in Hok as [Hok Hts]. apply andb_prop in Hok as [Hok _].
  apply andb_prop in Hok as [_ Hrep].
  apply negb_true_iff in Hts, Hrep.
  split; [done|]. split; [done|]. intros H10.
  apply andb_false_iff in Hts as [Hts|Hts]; [|done].
  apply Nat.leb_gt in Hts. lia.
Qed.


(** ** Substitution of single characters *)

Lemma scan_start_ge ic r s pos skip pm :
  pm ∈ Re.scan ic r s pos skip -> pos <= pm.1.
Proof.
  revert pos skip. induction s as [|c s IH]; intros pos skip.
  - destruct skip; simpl; [|by intros ?%elem_of_nil].
    destruct (Re.try_at ic r "" false) as [m|]; [|by intros ?%elem_of_nil].
    destruct (Nat.eqb _ 0).
    + intros [->|Hin]%elem_of_cons; [done|].
      destruct (Re.try_at ic r "" true) as [m'|]; [|by apply elem_of_nil in Hin].
      apply elem_of_cons in Hin as [->|Hin]; [done|].
      by apply elem_of_nil in Hin.
    + intros [->|Hin]%elem_of_cons; [done|]. by apply elem_of_nil in Hin.
  - assert (Hrec : forall sk, pm ∈ Re.scan ic r s (S pos) sk -> pos <= pm.1).
    { intros sk H. apply IH in H. lia. }
    destruct skip; simpl; [|apply Hrec].
    destruct (Re.try_at ic r (String c s) false) as [m|]; [|apply Hrec].
    destruct (Nat.eqb _ 0).
    + intros [->|Hin]%elem_of_cons; [done|].
      destruct (Re.try_at ic r (String c s) true) as [m'|];
        [|by apply Hrec in Hin].
      apply elem_of_cons in Hin as [->|Hin]; [done|]. by apply Hrec in Hin.
    + intros [->|Hin]%elem_of_cons; [done|]. by apply Hrec in Hin.
Qed.

Lemma splice_skip_char ms repl c s pos :
  (forall pm, pm ∈ ms -> S pos <= pm.1) ->
  Re.splice ms repl (String c s) pos = String c (Re.splice ms repl s (S pos)).
Proof.
  destruct ms as [|[start m] ms]; [done|]. intros H.
  specialize (H (start, m) ltac:(left)). simpl in H. simpl.
  replace (start - pos) with (S (start - S pos)) by lia. reflexivity.
Qed.

Lemma try_at_cls p c s :
  Re.try_at false (Re.Cls p) (String c s) false =
  if p c then Some (String c "", None) else None.
Proof.
  unfold Re.try_at. simpl. unfold Re.cmatch. simpl. rewrite orb_false_r.
  destruct (p c); [|done].
  replace (S (String.length s) - String.length s) with 1 by lia. reflexivity.
Qed.

Lemma sub_cls_from p s pos :
  Re.splice (Re.scan false (Re.Cls p) s pos 0) "" s pos
  = keep_chars (fun c => negb (p c)) s.
Proof.
  revert pos. induction s as [|c s IH]; intros pos; [done|].
  cbn [Re.scan]. rewrite try_at_cls. simpl keep_chars.
  destruct (p c); simpl negb; cbv iota.
  - cbn [fst String.length Nat.eqb Nat.sub]. cbn [Re.splice fst String.length].
    rewrite Nat.sub_diag. cbn. rewrite Nat.add_1_r. apply IH.
  - rewrite splice_skip_char; [by rewrite IH|].
    intros pm. apply scan_start_ge.
Qed.

Lemma keep_chars_ext p q s :
  (forall c, p c = q c) -> keep_chars p s = keep_chars q s.
Proof. intros H. induction s as [|c s IH]; simpl; [done|]. by rewrite H, IH. Qed.

Lemma strip_non_digits_keep (s : string) :
  strip_non_digits s = keep_chars Chr.is_digit s.
Proof.
  unfold strip_non_digits, Re.sub, Re.finditer. rewrite sub_cls_from.
  apply keep_chars_ext. intros c. unfold non_digit. apply negb_involutive.
Qed.

Lemma has_char_keep p q s :
  (forall c, p c = true -> q c = false) -> has_char q (keep_chars p s) = false.
Proof.
  intros H. induction s as [|c s IH]; simpl; [done|].
  destruct (p c) eqn:Hp; simpl; [|done]. by rewrite (H _ Hp), IH.
Qed.

Lemma keep_chars_idem p s : keep_chars p (keep_chars p s) = keep_chars p s.
Proof.
  induction s as [|c s IH]; simpl; [done|].
  destruct (p c) eqn:Hp; simpl; [|done]. by rewrite Hp, IH.
Qed.

(** X7. The digits-only form computed with [re.sub(r'\D', '', s)] is made
    of the decimal digits of [s], in their order, and of nothing else:
    stripping it again changes nothing and it is never longer than [s]. *)
Theorem digits_only_is_the_digits (s : string) :
  strip_non_digits s = keep_chars Chr.is_digit s /\
  has_char non_digit (strip_non_digits s) = false /\
  strip_non_digits (strip_non_digits s) = strip_non_digits s /\
  String.length (strip_non_digits s) <= String.length s.
Proof.
  rewrite !strip_non_digits_keep. split; [done|]. split; [|split].
  - apply has_char_keep. intros c Hc. unfold non_digit. by rewrite Hc.
  - apply keep_chars_idem.
  - induction s as [|c s IH]; simpl; [done|]. destruct (Chr.is_digit c); simpl; lia.
Qed.


(** ** Substitution in general: the matches tile the subject *)

Lemma tiles_shift ms c s pos :
  tiles ms s (S pos) -> tiles ms (String c s) pos.
Proof.
  inversion 1 as [|start m ms' s' pos' rest Hle Hdrop Hrest]; subst.
  - constructor.
  - apply tiles_cons with (rest := rest); [lia| |done].
    replace (start - pos) with (S (start - S pos)) by lia. done.
Qed.

Lemma try_at_prefix ic r s adv m :
  Re.try_at ic r s adv = Some m -> exists rest, s = m.1 +:+ rest.
Proof.
  unfold Re.try_at. intros H.
  apply ReFacts.exec_sound in H as (w & s' & g' & -> & Hw & H).
  destruct (adv && _); [done|]. injection H as <-. simpl.
  rewrite ReFacts.take_app_length. eauto.
Qed.

Lemma drop_app_length (w s : string) : Str.drop (String.length w) (w +:+ s) = s.
Proof. induction w as [|c w IH]; simpl; [by destruct s|done]. Qed.

Lemma app_eq_empty (w rest : string) : "" = w +:+ rest -> w = "" /\ rest = "".
Proof.
  destruct w as [|c w]; intros H.
  - split; [done|]. symmetry. exact H.
  - change (String c w +:+ rest) with (String c (w +:+ rest)) in H.
    discriminate H.
Qed.

Lemma drop_drop a b s : Str.drop (a + b) s = Str.drop b (Str.drop a s).
Proof.
  revert s. induction a as [|a IH]; intros s; simpl.
  - by destruct s.
  - destruct s as [|c s]; [by destruct b|]. apply IH.
Qed.

Lemma drop_succ c s n : Str.drop (S n) (String c s) = Str.drop n s.
Proof. reflexivity. Qed.

Lemma scan_tiles ic r s pos skip :
  tiles (Re.scan ic r s pos skip) (Str.drop skip s) (pos + skip).
Proof.
  revert pos skip. induction s as [|c s IH]; intros pos skip.
  - destruct skip; simpl; [|constructor].
    destruct (Re.try_at ic r "" false) as [m|] eqn:H1; [|constructor].
    apply try_at_prefix in H1 as Hp1. destruct Hp1 as [rest1 Hp1].
    destruct m as [w g]. cbn [fst] in Hp1.
    apply app_eq_empty in Hp1 as [-> ->].
    simpl. rewrite Nat.add_0_r.
    apply tiles_cons with (rest := ""); [lia|by rewrite Nat.sub_diag|].
    destruct (Re.try_at ic r "" true) as [[w' g']|] eqn:H2; [|constructor].
    apply try_at_prefix in H2 as [rest2 Hp2]. cbn [fst] in Hp2.
    apply app_eq_empty in Hp2 as [-> ->]. simpl.
    apply tiles_cons with (rest := ""); [lia| |constructor].
    simpl. by rewrite Nat.add_0_r, Nat.sub_diag.
  - destruct skip.
    + simpl Str.drop. rewrite Nat.add_0_r.
      assert (Hnext : forall n w rest,
                 String c s = w +:+ rest -> String.length w = S n ->
                 tiles (Re.scan ic r s (S pos) n) rest (pos + S n)).
      { intros n w rest Hs Hn. specialize (IH (S pos) n).
        replace (S pos + n) with (pos + S n) in IH by lia.
        assert (rest = Str.drop n s) as ->; [|done].
        rewrite <- (drop_succ c), Hs, <- Hn. by rewrite drop_app_length. }
      assert (Hnone : tiles (Re.scan ic r s (S pos) 0) (String c s) pos).
      { apply tiles_shift. specialize (IH (S pos) 0).
        by rewrite Nat.add_0_r in IH. }
      cbn [Re.scan].
      destruct (Re.try_at ic r (String c s) false) as [[w g]|] eqn:H1;
        [|exact Hnone].
      apply try_at_prefix in H1 as [rest1 Hp1]. simpl in Hp1.
      cbn [fst]. destruct (String.length w) as [|n] eqn:Hn; cbn [Nat.eqb].
      * destruct w; [|done]. change ("" +:+ rest1) with rest1 in Hp1.
        subst rest1.
        apply tiles_cons with (rest := String c s);
          [lia|by rewrite Nat.sub_diag|].
        simpl. rewrite Nat.add_0_r.
        destruct (Re.try_at ic r (String c s) true) as [[w' g']|] eqn:H2;
          [|exact Hnone].
        apply try_at_prefix in H2 as [rest2 Hp2]. simpl in Hp2.
        cbn [fst].
        apply tiles_cons with (rest := rest2);
          [lia|by rewrite Nat.sub_diag|].
        cbn [fst]. destruct (String.length w') as [|n'] eqn:Hn'.
        -- destruct w'; [|done]. change ("" +:+ rest2) with rest2 in Hp2.
           subst rest2. simpl. rewrite Nat.add_0_r. exact Hnone.
        -- replace (S n' - 1) with n' by lia. by apply (Hnext n' w').
      * apply tiles_cons with (rest := rest1);
          [lia|by rewrite Nat.sub_diag|].
        cbn [fst]. rewrite Hn. replace (S n - 1) with n by lia.
        by apply (Hnext n w).
    + simpl. specialize (IH (S pos) skip).
      by replace (S pos + skip) with (pos + S skip) in IH by lia.
Qed.

Lemma keep_chars_app p a b :
  keep_chars p (a +:+ b) = keep_chars p a +:+ keep_chars p b.
Proof.
  induction a as [|c a IH]; [done|]. rewrite ReFacts.app_cons. simpl.
  destruct (p c); [|done]. by rewrite ReFacts.app_cons, IH.
Qed.

Lemma take_drop_str n s : Str.take n s +:+ Str.drop n s = s.
Proof.
  revert s. induction n as [|n IH]; intros [|c s]; simpl; try done.
  by rewrite ReFacts.app_cons, IH.
Qed.

(** replacing matches that hold no [p] character by a text that holds none
    leaves the [p] characters of the subject as they were *)
Lemma keep_chars_splice p ms repl s pos :
  tiles ms s pos ->
  (forall pm, pm ∈ ms -> keep_chars p pm.2.1 = "") ->
  keep_chars p repl = "" ->
  keep_chars p (Re.splice ms repl s pos) = keep_chars p s.
Proof.
  intros Ht Hms Hrepl. induction Ht as [|start m ms s pos rest Hle Hdrop _ IH];
    [done|].
  cbn [Re.splice]. rewrite !keep_chars_app, Hrepl.
  rewrite drop_drop, Hdrop, drop_app_length.
  rewrite IH by (intros pm Hpm; apply Hms; by right).
  rewrite <- (take_drop_str (start - pos) s) at 2.
  rewrite keep_chars_app, Hdrop, keep_chars_app.
  pose proof (Hms (start, m) ltac:(left)) as Hm. simpl in Hm.
  by rewrite Hm.
Qed.

Lemma reps_keep_none ic p q lo hi w :
  (forall c, Re.cmatch ic p c = true -> q c = false) ->
  ReSem.reps (Re.cmatch ic p) lo hi w -> keep_chars q w = "".
Proof.
  intros H. induction 1 as [hi|lo hi c w Hc _ _ IH]; [done|].
  simpl. by rewrite (H _ Hc).
Qed.

Lemma keep_chars_lstrip p q s :
  (forall c, p c = true -> q c = false) ->
  keep_chars q (Str.lstrip_by p s) = keep_chars q s.
Proof.
  intros H. induction s as [|c s IH]; [done|]. simpl.
  destruct (p c) eqn:Hp; [|done]. by rewrite (H _ Hp).
Qed.

Lemma keep_chars_rev_onto q s acc :
  keep_chars q (Str.rev_onto s acc)
  = Str.rev_onto (keep_chars q s) (keep_chars q acc).
Proof.
  revert acc. induction s as [|c s IH]; intros acc; [done|]. simpl.
  rewrite IH. simpl. by destruct (q c).
Qed.

Lemma rev_onto_rev_onto s a b :
  Str.rev_onto (Str.rev_onto s a) b = Str.rev_onto a (s +:+ b).
Proof.
  revert a b. induction s as [|c s IH]; intros a b; [done|]. simpl.
  rewrite IH. by simpl.
Qed.

Lemma rev_rev s : Str.rev (Str.rev s) = s.
Proof. unfold Str.rev. rewrite rev_onto_rev_onto. simpl. apply ReFacts.app_nil_r. Qed.

Lemma keep_chars_rev q s : keep_chars q (Str.rev s) = Str.rev (keep_chars q s).
Proof. unfold Str.rev. by rewrite keep_chars_rev_onto. Qed.

Lemma keep_chars_strip q s :
  (forall c, Chr.is_space c = true -> q c = false) ->
  keep_chars q (Str.strip s) = keep_chars q s.
Proof.
  intros H. unfold Str.strip, Str.rstrip_by.
  rewrite keep_chars_rev, keep_chars_lstrip, keep_chars_rev, rev_rev by done.
  by apply keep_chars_lstrip.
Qed.

Lemma keep_chars_normalize_spaces q num :
  (forall c, Chr.is_space c = true -> q c = false) ->
  keep_chars q (normalize_spaces num) = keep_chars q num.
Proof.
  intros H. unfold normalize_spaces, Re.sub, Re.finditer.
  rewrite keep_chars_splice.
  - by apply keep_chars_strip.
  - apply (scan_tiles false _ _ 0 0).
  - intros pm Hpm. apply ReFacts.scan_lang in Hpm.
    inversion Hpm as [| | | | |p lo hi w Hw|]; subst.
    apply (reps_keep_none false Chr.is_space q 1 None); [|done].
    intros c Hc. apply H. unfold Re.cmatch in Hc. simpl in Hc.
    by rewrite orb_false_r in Hc.
  - simpl. by rewrite (H " "%char).
Qed.

(** ** The capturing group *)

Lemma exec_sound_group {A} ic r s g (k : string -> option string -> option A) x :
  Re.exec ic r s g k = Some x ->
  exists s' g', k s' g' = Some x /\
                (g' = g \/ exists v, g' = Some v /\ captured ic r v).
Proof.
  revert s g k x.
  induction r as [|p|r1 IH1 r2 IH2|r1 IH1 r2 IH2|p lo hi|r IH];
    intros s g k x; simpl.
  - eauto.
  - destruct s as [|c s]; [done|]. destruct (Re.cmatch ic p c); [eauto|done].
  - intros H. apply IH1 in H as (s1 & g1 & H & Hg1).
    apply IH2 in H as (s2 & g2 & H & Hg2).
    exists s2, g2. split; [done|].
    destruct Hg2 as [->|(v & -> & Hv)]; [|by eauto].
    destruct Hg1 as [->|(v & -> & Hv)]; eauto.
  - destruct (Re.exec ic r1 s g k) as [y|] eqn:H1.
    + intros [= ->]. apply IH1 in H1 as (s' & g' & H & Hg).
      exists s', g'. split; [done|]. destruct Hg as [->|(v & -> & Hv)]; eauto.
    + intros H2. apply IH2 in H2 as (s' & g' & H & Hg).
      exists s', g'. split; [done|]. destruct Hg as [->|(v & -> & Hv)]; eauto.
  - intros H. apply ReFacts.rep_sound in H as (w & s' & -> & Hw & H). eauto.
  - intros H. apply ReFacts.exec_sound in H as (w & s' & g' & -> & Hw & H).
    rewrite ReFacts.take_app_length in H. eauto 10.
Qed.

Lemma try_at_group ic r s adv m :
  Re.try_at ic r s adv = Some m ->
  m.2 = None \/ exists v, m.2 = Some v /\ captured ic r v.
Proof.
  unfold Re.try_at. intros H.
  apply exec_sound_group in H as (s' & g' & H & Hg).
  destruct (adv && _); [done|]. injection H as <-. simpl. done.
Qed.

Lemma scan_forall (P : Re.found -> Prop) ic r :
  (forall s adv m, Re.try_at ic r s adv = Some m -> P m) ->
  forall s pos skip pm, pm ∈ Re.scan ic r s pos skip -> P pm.2.
Proof.
  intros HP s. induction s as [|c s IH]; intros pos skip pm.
  - destruct skip; simpl; [|by intros ?%elem_of_nil].
    destruct (Re.try_at ic r "" false) as [m|] eqn:H1;
      [|by intros ?%elem_of_nil].
    destruct (Nat.eqb _ 0).
    + intros [->|Hin]%elem_of_cons; [by apply HP in H1|].
      destruct (Re.try_at ic r "" true) as [m'|] eqn:H2;
        [|by apply elem_of_nil in Hin].
      apply elem_of_cons in Hin as [->|Hin]; [by apply HP in H2|].
      by apply elem_of_nil in Hin.
    + intros [->|Hin]%elem_of_cons; [by apply HP in H1|].
      by apply elem_of_nil in Hin.
  - destruct skip; simpl; [|apply IH].
    destruct (Re.try_at ic r (String c s) false) as [m|] eqn:H1; [|apply IH].
    destruct (Nat.eqb _ 0).
    + intros [->|Hin]%elem_of_cons; [by apply HP in H1|].
      destruct (Re.try_at ic r (String c s) true) as [m'|] eqn:H2;
        [|by apply IH in Hin].
      apply elem_of_cons in Hin as [->|Hin]; [by apply HP in H2|].
      by apply IH in Hin.
    + intros [->|Hin]%elem_of_cons; [by apply HP in H1|].
      by apply IH in Hin.
Qed.

(** what [findall] reports for a pattern with a group is the empty string or
    a text of the group *)
Lemma findall_group ic r text x :
  Re.has_group r = true -> x ∈ Re.findall ic r text ->
  x = "" \/ captured ic r x.
Proof.
  intros Hg Hin. unfold Re.findall, Re.finditer in Hin.
  apply list_elem_of_fmap in Hin as (pm & -> & Hin).
  apply (scan_forall _ ic r (try_at_group ic r)) in Hin.
  unfold Re.report, Re.group1. rewrite Hg.
  destruct Hin as [->|(v & -> & Hv)]; [by left|by right].
Qed.

Lemma exec_always_captures {A} ic r :
  always_captures r = true ->
  forall s g (k : string -> option string -> option A) x,
    Re.exec ic r s g k = Some x ->
    exists s' v, k s' (Some v) = Some x /\ captured ic r v.
Proof.
  induction r as [|p|r1 IH1 r2 IH2|r1 IH1 r2 IH2|p lo hi|r IH];
    simpl; intros Hr s g k x H; try discriminate Hr.
  - destruct (always_captures r2) eqn:H2.
    + apply exec_sound_group in H as (s1 & g1 & H & _).
      apply (IH2 eq_refl) in H as (s' & v & H & Hv). eauto.
    + rewrite orb_false_r in Hr.
      apply (IH1 Hr) in H as (s1 & v & H & Hv).
      apply exec_sound_group in H as (s' & g' & H & [->|(v' & -> & Hv')]);
        eauto.
  - apply andb_prop in Hr as [Hr1 Hr2].
    destruct (Re.exec ic r1 s g k) as [y|] eqn:H1.
    + injection H as ->. apply (IH1 Hr1) in H1 as (s' & v & H & Hv). eauto.
    + apply (IH2 Hr2) in H as (s' & v & H & Hv). eauto.
  - apply ReFacts.exec_sound in H as (w & s' & g' & -> & Hw & H).
    rewrite ReFacts.take_app_length in H. eauto.
Qed.

Lemma try_at_captures ic r s adv m :
  always_captures r = true -> Re.try_at ic r s adv = Some m ->
  exists v, m.2 = Some v /\ captured ic r v.
Proof.
  unfold Re.try_at. intros Hr H.
  apply (exec_always_captures ic r Hr) in H as (s' & v & H & Hv).
  destruct (adv && _); [done|]. injection H as <-. simpl. eauto.
Qed.

(** what [findall] reports for a pattern that always fills its group is a
    text of the group *)
Lemma findall_captured ic r text x :
  Re.has_group r = true -> always_captures r = true ->
  x ∈ Re.findall ic r text -> captured ic r x.
Proof.
  intros Hg Hr Hin. unfold Re.findall, Re.finditer in Hin.
  apply list_elem_of_fmap in Hin as (pm & -> & Hin).
  apply (scan_forall _ ic r (fun s adv m => try_at_captures ic r s adv m Hr))
    in Hin as (v & Hv & Hc).
  unfold Re.report, Re.group1. by rewrite Hg, Hv.
Qed.

(** ** Numbers *)

Lemma reps_length q lo hi w :
  ReSem.reps q lo hi w ->
  lo <= String.length w /\ forall h, hi = Some h -> String.length w <= h.
Proof.
  induction 1 as [hi|lo hi c w _ Hm _ [IH1 IH2]]; simpl.
  - split; [lia|]. intros; lia.
  - split; [lia|]. intros h ->. destruct h as [|h]; [done|].
    specialize (IH2 h eq_refl). lia.
Qed.

Lemma reps_keep_all q p lo hi w :
  (forall c, q c = true -> p c = true) ->
  ReSem.reps q lo hi w -> keep_chars p w = w.
Proof.
  intros H. induction 1 as [hi|lo hi c w Hc _ _ IH]; [done|].
  simpl. by rewrite (H _ Hc), IH.
Qed.

Lemma for_all_characters (P : ascii -> bool) :
  (forall b0 b1 b2 b3 b4 b5 b6 b7, P (Ascii b0 b1 b2 b3 b4 b5 b6 b7) = true) ->
  forall c, P c = true.
Proof. intros H [b0 b1 b2 b3 b4 b5 b6 b7]. apply H. Qed.

Ltac by_characters c H :=
  revert H; generalize c;
  match goal with |- forall c, ?f c = true -> ?g c = ?b =>
    let K := fresh in
    assert (K : forall c, implb (f c) (Bool.eqb (g c) b) = true)
      by (apply for_all_characters; intros [] [] [] [] [] [] [] [];
          vm_compute; reflexivity);
    let c' := fresh in let Hc := fresh in
    intros c' Hc; specialize (K c'); rewrite Hc in K; simpl in K;
    by apply Bool.eqb_prop in K
  end.

Lemma plus_sign_no_digit ic c :
  Re.cmatch ic (Ascii.eqb "+") c = true -> Chr.is_digit c = false.
Proof. intros H. destruct ic; by_characters c H. Qed.

Lemma digit_set_is_digit ic c :
  Re.cmatch ic Chr.is_digit c = true -> Chr.is_digit c = true.
Proof. intros H. destruct ic; by_characters c H. Qed.

Lemma nonzero_is_digit ic c :
  Re.cmatch ic nonzero_digit c = true -> Chr.is_digit c = true.
Proof. intros H. destruct ic; by_characters c H. Qed.

Lemma space_no_digit c : Chr.is_space c = true -> Chr.is_digit c = false.
Proof. intros H. by_characters c H. Qed.

(** an optional plus sign: no digit, and at most the sign itself *)
Lemma opt_plus_word ic w :
  ReSem.reps (Re.cmatch ic (Ascii.eqb "+")) 0 (Some 1) w ->
  keep_chars Chr.is_digit w = "" /\ String.length w <= 1.
Proof.
  intros Hw. split.
  - eapply reps_keep_none; [|exact Hw]. apply plus_sign_no_digit.
  - apply reps_length in Hw as [_ Hw]. by apply Hw.
Qed.

(** the words of the number of [WHATSAPP_REGEX]: an optional plus sign and
    8 to 16 digits *)
Lemma whatsapp_number_word ic v :
  ReSem.lang ic whatsapp_number_pattern v ->
  8 <= String.length (keep_chars Chr.is_digit v) <= 16 /\
  (v = keep_chars Chr.is_digit v \/ v = String "+" (keep_chars Chr.is_digit v)).
Proof.
  unfold whatsapp_number_pattern. simpl. intros H.
  inversion H as [| |r1 r2 w1 w23 H1 H23| | | |]; subst.
  inversion H1 as [| | | | |p lo hi w Hw1|]; subst.
  inversion H23 as [| |r1 r2 w2 w3 H2 H3| | | |]; subst.
  inversion H2 as [|p c Hc| | | | |]; subst.
  inversion H3 as [| | | | |p lo hi w Hw3|]; subst.
  apply nonzero_is_digit in Hc.
  assert (Hall : keep_chars Chr.is_digit w3 = w3)
    by (eapply reps_keep_all; [apply digit_set_is_digit|exact Hw3]).
  apply reps_length in Hw3 as [Hlo Hhi]. specialize (Hhi 15 eq_refl).
  assert (Hd : keep_chars Chr.is_digit (String c w3) = String c w3)
    by (simpl; by rewrite Hc, Hall).
  inversion Hw1 as [hi|lo hi c1 w1' Hc1 _ Hw1']; subst.
  - change ("" +:+ (String c "" +:+ w3)) with (String c w3).
    rewrite Hd. simpl. split; [lia|by left].
  - simpl in Hw1'.
    inversion Hw1' as [hi'|lo' hi' c2 w2' _ Hm2 _]; subst; [|discriminate Hm2].
    change (String c1 "" +:+ (String c "" +:+ w3))
      with (String c1 (String c w3)).
    cbn [keep_chars]. cbn [keep_chars] in Hd.
    rewrite (plus_sign_no_digit _ _ Hc1), Hd. simpl. split; [lia|].
    right. unfold Re.cmatch in Hc1.
    assert (c1 = "+"%char) as ->; [|done].
    revert Hc1. generalize c1. clear.
    assert (K : forall c, implb (Ascii.eqb "+" c
              || ic && (Ascii.eqb "+" (Chr.lower c) || Ascii.eqb "+" (Chr.upper c)))
              (Ascii.eqb c "+") = true).
    { destruct ic; apply for_all_characters; intros [] [] [] [] [] [] [] [];
        vm_compute; reflexivity. }
    intros c Hc. specialize (K c). rewrite Hc in K. by apply Ascii.eqb_eq in K.
Qed.

Lemma whatsapp_text_step_spec (acc : gset string) (mtch : string) :
  whatsapp_text_step acc mtch =
  if 7 <=? String.length (strip_non_digits mtch) then acc ∪ {[mtch]} else acc.
Proof. reflexivity. Qed.

Lemma whatsapp_text_word (text x : string) :
  x ∈ whatsapp_from_text ∅ text ->
  8 <= String.length (strip_non_digits x) <= 16 /\
  (x = strip_non_digits x \/ x = String "+" (strip_non_digits x)).
Proof.
  unfold whatsapp_from_text.
  rewrite (elem_of_foldl_add _ (fun m => 7 <=? String.length (strip_non_digits m))
             (fun m => m) whatsapp_text_step_spec).
  intros [H|(m & Hin & Hk & ->)]; [set_solver|].
  apply Nat.leb_le in Hk.
  pose proof (findall_group true WHATSAPP_REGEX text m eq_refl Hin) as [->|Hv].
  - rewrite strip_non_digits_keep in Hk. simpl in Hk. lia.
  - simpl in Hv.
    assert (Hw : ReSem.lang true whatsapp_number_pattern m).
    { unfold captured in Hv. simpl in Hv. tauto. }
    rewrite strip_non_digits_keep. by apply (whatsapp_number_word true).
Qed.

(** every match of the keyword pattern holds a number of 8 to 16 digits *)
Lemma whatsapp_match_word (text m : string) :
  m ∈ Re.findall true WHATSAPP_REGEX text ->
  ReSem.lang true whatsapp_number_pattern m.
Proof.
  intros Hin.
  apply (findall_captured true WHATSAPP_REGEX text m eq_refl eq_refl) in Hin.
  simpl in Hin. tauto.
Qed.

(** X8. Every number retained by the keyword strategy of the WhatsApp
    detector has between 8 and 16 digits, and is made of these digits alone
    or of a plus sign followed by them. So the test on at least 7 digits
    never rejects a match: the strategy adds every match of the pattern. *)
Theorem whatsapp_text_numbers (text x : string) :
  (x ∈ whatsapp_from_text ∅ text ->
   8 <= String.length (strip_non_digits x) <= 16 /\
   (x = strip_non_digits x \/ x = String "+" (strip_non_digits x))) /\
  (x ∈ Re.findall true WHATSAPP_REGEX text ->
   (7 <=? String.length (strip_non_digits x)) = true /\
   forall found, whatsapp_text_step found x = found ∪ {[x]}) /\
  (forall found,
     whatsapp_from_text found text
     = found ∪ list_to_set (Re.findall true WHATSAPP_REGEX text)).
Proof.
  assert (Hpass : forall m, m ∈ Re.findall true WHATSAPP_REGEX text ->
                            (7 <=? String.length (strip_non_digits m)) = true).
  { intros m Hm. apply whatsapp_match_word, whatsapp_number_word in Hm as [Hm _].
    rewrite strip_non_digits_keep. apply Nat.leb_le. lia. }
  split; [apply whatsapp_text_word|]. split.
  - intros Hin. split; [by apply Hpass|].
    intros found. rewrite whatsapp_text_step_spec. by rewrite Hpass.
  - intros found. apply set_eq. intros y. unfold whatsapp_from_text.
    rewrite (elem_of_foldl_add _
               (fun m => 7 <=? String.length (strip_non_digits m))
               (fun m => m) whatsapp_text_step_spec).
    rewrite elem_of_union, elem_of_list_to_set. split.
    + intros [H|(m & Hm & _ & ->)]; [by left|by right].
    + intros [H|H]; [by left|]. right. exists y. by rewrite Hpass.
Qed.

(** ** The whole WhatsApp detector *)

Lemma foldl_preserves {B} (P : gset string -> Prop)
    (step : gset string -> B -> gset string) (l : list B) (acc : gset string) :
  P acc -> (forall acc b, b ∈ l -> P acc -> P (step acc b)) ->
  P (foldl step acc l).
Proof.
  revert acc. induction l as [|b l IH]; intros acc Hacc Hstep; [done|].
  simpl. apply IH.
  - apply Hstep; [left|done].
  - intros acc' b' Hb'. apply Hstep. by right.
Qed.

Lemma try_at_top_group ic r1 s adv m :
  Re.try_at ic (Re.Grp r1) s adv = Some m ->
  exists v, m.2 = Some v /\ ReSem.lang ic r1 v.
Proof.
  unfold Re.try_at. simpl. intros H.
  apply ReFacts.exec_sound in H as (w & s' & g' & -> & Hw & H).
  destruct (adv && _); [done|]. injection H as <-. simpl.
  rewrite ReFacts.take_app_length. eauto.
Qed.

Lemma search_top_group ic r1 s m :
  Re.search ic (Re.Grp r1) s = Some m ->
  exists v, Re.group1 m = v /\ ReSem.lang ic r1 v.
Proof.
  unfold Re.search, Re.finditer.
  destruct (Re.scan ic (Re.Grp r1) s 0 0) as [|pm l] eqn:Hscan; [done|].
  simpl. intros [= <-].
  assert (Hin : pm ∈ Re.scan ic (Re.Grp r1) s 0 0) by (rewrite Hscan; left).
  apply (scan_forall _ ic _ (try_at_top_group ic r1)) in Hin
    as (v & Hv & Hw).
  exists v. unfold Re.group1. by rewrite Hv.
Qed.

Lemma whatsapp_link_word ic v :
  ReSem.lang ic whatsapp_link_pattern v ->
  7 <= String.length (keep_chars Chr.is_digit v) <= 15.
Proof.
  unfold whatsapp_link_pattern. intros H.
  inversion H as [| |r1 r2 w1 w2 H1 H2| | | |]; subst.
  inversion H1 as [| | | | |p lo hi w Hw1|]; subst.
  inversion H2 as [| | | | |p lo hi w Hw2|]; subst.
  apply opt_plus_word in Hw1 as [Hw1 _].
  assert (Hall : keep_chars Chr.is_digit w2 = w2)
    by (eapply reps_keep_all; [apply digit_set_is_digit|exact Hw2]).
  apply reps_length in Hw2 as [Hlo Hhi]. specialize (Hhi 15 eq_refl).
  rewrite keep_chars_app, Hw1, Hall. change ("" +:+ w2) with w2. lia.
Qed.

(** X9. Every number reported by the WhatsApp detector, whichever of the
    three strategies found it (keyword in the text, link to WhatsApp,
    element naming WhatsApp), has at least 7 digits. *)
Theorem whatsapp_numbers_have_seven_digits (sp : soup) (x : string) :
  x ∈ extract_whatsapp sp -> 7 <= String.length (strip_non_digits x).
Proof.
  revert x. change (enough_digits (extract_whatsapp sp)).
  unfold extract_whatsapp.
  apply foldl_preserves; [apply foldl_preserves|].
  - intros x Hx. apply whatsapp_text_word in Hx. lia.
  - intros acc href _ Hacc. unfold whatsapp_link_step.
    destruct (_ || _); [|done].
    destruct (Re.search _ _ _) as [m|] eqn:Hs; [|done].
    apply search_top_group in Hs as (v & <- & Hv).
    apply whatsapp_link_word in Hv. rewrite <- strip_non_digits_keep in Hv.
    intros x [Hx|Hx%elem_of_singleton]%elem_of_union; [by apply Hacc|].
    subst x. lia.
  - intros acc element_text _ Hacc. unfold whatsapp_element_step.
    apply foldl_preserves; [done|].
    intros acc' num _ Hacc'.
    destruct (7 <=? _) eqn:Hk; [|done]. apply Nat.leb_le in Hk.
    intros x [Hx|Hx%elem_of_singleton]%elem_of_union; [by apply Hacc'|].
    by subst x.
Qed.


(** ** Characters that a result cannot hold *)

Lemma has_char_split_head p sep s :
  has_char p (Str.split_head sep s) = true -> has_char p s = true.
Proof.
  unfold Str.split_head. induction s as [|c s IH]; simpl; [done|].
  destruct (Str.split_on sep s) as [hd tl]. simpl in IH.
  destruct (Ascii.eqb c sep); simpl; [done|].
  intros [H|H]%orb_prop; [by rewrite H|]. rewrite IH by done. apply orb_true_r.
Qed.

Lemma split_head_no_sep sep s :
  has_char (Ascii.eqb sep) (Str.split_head sep s) = false.
Proof.
  unfold Str.split_head. induction s as [|c s IH]; simpl; [done|].
  destruct (Str.split_on sep s) as [hd tl]. simpl in IH.
  destruct (Ascii.eqb c sep) eqn:Hc; simpl; [done|].
  rewrite IH, orb_false_r. by rewrite Ascii.eqb_sym.
Qed.

Lemma split_head_prefix sep s :
  exists rest, s = Str.split_head sep s +:+ rest.
Proof.
  unfold Str.split_head. induction s as [|c s [rest IH]]; simpl; [by exists ""|].
  destruct (Str.split_on sep s) as [hd tl]. simpl in IH.
  destruct (Ascii.eqb c sep); simpl.
  - by exists (String c s).
  - exists rest. rewrite ReFacts.app_cons. by rewrite <- IH.
Qed.

(** X10. The email candidate taken from a [mailto:] link holds neither a
    question mark nor an ampersand, and is the beginning of the link target
    with its [mailto:] markers removed. *)
Theorem mailto_target_has_no_query (href : string) :
  has_char (Ascii.eqb "?") (mailto_target href) = false /\
  has_char (Ascii.eqb "&") (mailto_target href) = false /\
  exists rest, Str.remove_all "mailto:" href = mailto_target href +:+ rest.
Proof.
  unfold mailto_target. split; [|split].
  - destruct (has_char _ (Str.split_head "&" _)) eqn:H; [|done].
    apply has_char_split_head in H. by rewrite split_head_no_sep in H.
  - apply split_head_no_sep.
  - destruct (split_head_prefix "?" (Str.remove_all "mailto:" href)) as [r1 H1].
    destruct (split_head_prefix "&"
                (Str.split_head "?" (Str.remove_all "mailto:" href))) as [r2 H2].
    exists (r2 +:+ r1). rewrite <- ReFacts.app_assoc, <- H2. done.
Qed.

(** ** Trailing punctuation *)

Lemma last_char_rev_onto s acc :
  last_char (Str.rev_onto s acc) =
  match acc with
  | EmptyString => match s with String c _ => Some c | EmptyString => None end
  | String _ _ => last_char acc
  end.
Proof.
  revert acc. induction s as [|c s IH]; intros acc; simpl.
  - by destruct acc.
  - rewrite IH. destruct acc as [|a acc]; [done|]. simpl. by destruct acc.
Qed.

Lemma lstrip_by_head p s c s' :
  Str.lstrip_by p s = String c s' -> p c = false.
Proof.
  induction s as [|d s IH]; simpl; [done|].
  destruct (p d) eqn:Hd; [done|]. by intros [= <- _].
Qed.

Lemma rstrip_by_last p s c :
  last_char (Str.rstrip_by p s) = Some c -> p c = false.
Proof.
  unfold Str.rstrip_by, Str.rev. rewrite last_char_rev_onto.
  destruct (Str.lstrip_by p _) as [|d t] eqn:H; [done|].
  intros [= <-]. by apply lstrip_by_head in H.
Qed.

Lemma rstrip_by_prefix p s : exists rest, s = Str.rstrip_by p s +:+ rest.
Proof.
  unfold Str.rstrip_by.
  assert (H : forall x, exists pre, x = pre +:+ Str.lstrip_by p x).
  { induction x as [|c x [pre IH]]; simpl; [by exists ""|].
    destruct (p c); [|by exists ""].
    exists (String c pre). rewrite ReFacts.app_cons. by rewrite <- IH. }
  destruct (H (Str.rev s)) as [pre Hpre].
  exists (Str.rev pre).
  rewrite <- (rev_rev s), Hpre at 1.
  unfold Str.rev. 
  assert (Hrev : forall a b acc, Str.rev_onto (a +:+ b) acc = Str.rev_onto b (Str.rev_onto a acc)).
  { induction a as [|c a IHa]; intros b acc; [done|]. rewrite ReFacts.app_cons. simpl. apply IHa. }
  rewrite Hrev.
  assert (Hacc : forall a acc, Str.rev_onto a acc = Str.rev_onto a "" +:+ acc).
  { induction a as [|c a IHa]; intros acc; [done|]. simpl.
    rewrite IHa, (IHa (String c "")). by rewrite ReFacts.app_assoc. }
  apply Hacc.
Qed.

(** X11. A URL that the text scan adds to the URL set does not end in one
    of the punctuation characters stripped by the detector, does not end in
    a media extension, and is the beginning of the URL matched in the
    text. *)
Theorem text_urls_end_clean (acc : gset string) (url x : string) (c : ascii) :
  x ∈ text_url_step acc url -> x ∉ acc ->
  last_char x = Some c ->
  Chr.one_of punctuation_chars c = false /\ is_media x = false /\
  exists rest, url = x +:+ rest.
Proof.
  rewrite text_url_step_spec. unfold text_url_kept.
  destruct (negb _) eqn:Hk; [|done]. apply negb_true_iff in Hk.
  intros [H|H%elem_of_singleton]%elem_of_union Hacc Hlast; [done|]. subst x.
  split; [|split; [done|]].
  - by apply rstrip_by_last in Hlast.
  - apply rstrip_by_prefix.
Qed.

(** ** Lines *)

Lemma has_char_rev_onto p s acc :
  has_char p (Str.rev_onto s acc) = has_char p s || has_char p acc.
Proof.
  revert acc. induction s as [|c s IH]; intros acc; [done|]. simpl.
  rewrite IH. simpl. by destruct (p c), (has_char p s).
Qed.

Lemma has_char_rev p s : has_char p (Str.rev s) = has_char p s.
Proof. unfold Str.rev. rewrite has_char_rev_onto. simpl. apply orb_false_r. Qed.

Lemma has_char_lstrip p q s :
  has_char p s = false -> has_char p (Str.lstrip_by q s) = false.
Proof.
  induction s as [|c s IH]; simpl; [done|].
  intros [H1 H2]%orb_false_elim. destruct (q c); [by apply IH|].
  simpl. by rewrite H1, H2.
Qed.

Lemma has_char_strip p s :
  has_char p s = false -> has_char p (Str.strip s) = false.
Proof.
  intros H. unfold Str.strip, Str.rstrip_by.
  rewrite has_char_rev. apply has_char_lstrip. rewrite has_char_rev.
  by apply has_char_lstrip.
Qed.

Lemma split_pieces_no_sep sep s l :
  l ∈ Str.split sep s -> has_char (Ascii.eqb sep) l = false.
Proof.
  unfold Str.split. revert l. induction s as [|c s IH]; intros l; simpl.
  - by intros ->%list_elem_of_singleton.
  - destruct (Str.split_on sep s) as [hd tl].
    destruct (Ascii.eqb c sep) eqn:Hc.
    + intros [->|H]%elem_of_cons; [done|]. by apply IH.
    + intros [->|H]%elem_of_cons.
      * simpl. rewrite (IH hd) by left. rewrite Ascii.eqb_sym in Hc.
        by rewrite Hc.
      * apply IH. by right.
Qed.

Lemma has_char_app p a b :
  has_char p (a +:+ b) = has_char p a || has_char p b.
Proof.
  induction a as [|c a IH]; [done|]. rewrite ReFacts.app_cons. simpl.
  by rewrite IH, orb_assoc.
Qed.

Lemma has_char_join p sep (parts : list string) :
  has_char p sep = false ->
  (forall l, l ∈ parts -> has_char p l = false) ->
  has_char p (Str.join sep parts) = false.
Proof.
  intros Hsep. unfold Str.join.
  induction parts as [|l parts IH]; intros H; [done|].
  simpl. destruct parts as [|l' parts].
  - apply H. left.
  - change (has_char p (l +:+ sep +:+ String.concat sep (l' :: parts)) = false).
    rewrite !has_char_app, Hsep, (H l) by left. simpl.
    apply IH. intros x Hx. apply H. by right.
Qed.

Lemma context_of_single_line (text : string) (i : nat) :
  has_char (Ascii.eqb "010") (context_of (Str.split "010" text) i) = false.
Proof.
  unfold context_of. apply has_char_join; [done|].
  intros l Hl. apply list_elem_of_fmap in Hl as (l0 & -> & Hl0).
  apply has_char_strip, (split_pieces_no_sep _ text).
  apply list_elem_of_In, List.filter_In in Hl0 as [Hl0 _].
  apply list_elem_of_In in Hl0. unfold list_slice in Hl0.
  eapply subseteq_drop, subseteq_take, Hl0.
Qed.

(** X12. Every address contributed by the context strategy is a single
    line: it holds no line feed, and its length is strictly between 20 and
    500. *)
Theorem context_addresses_single_line (text x : string) :
  x ∈ addresses_from_context ∅ text ->
  has_char (Ascii.eqb "010") x = false /\ 20 < String.length x < 500.
Proof.
  unfold addresses_from_context.
  rewrite (elem_of_foldl_add _ _ _
             (address_context_step_spec (Str.split "010" text))).
  intros [H|((j & l) & _ & Hk & ->)]; [set_solver|]. simpl.
  split; [apply context_of_single_line|].
  unfold context_kept in Hk. simpl in Hk.
  apply andb_prop in Hk as [_ Hk]. apply andb_prop in Hk as [H1 H2].
  apply Nat.ltb_lt in H1, H2. lia.
Qed.


(** ** The address detector as a whole *)

Lemma address_tag_step_spec (acc : gset string) (t : string) :
  address_tag_step acc t =
  if 10 <? String.length t then acc ∪ {[t]} else acc.
Proof. reflexivity. Qed.

(** the steps of the five strategies add a text or leave the set alone *)
Lemma address_class_step_adds (acc : gset string) (t : string) :
  address_class_step acc t = acc \/
  (address_class_step acc t = acc ∪ {[t]} /\ 15 < String.length t < 400).
Proof.
  unfold address_class_step.
  destruct (_ && _) eqn:H; [right|by left].
  apply andb_prop in H as [H1 H2]. apply Nat.ltb_lt in H1, H2. split; [done|lia].
Qed.

Lemma address_postal_step_adds (text : string) (acc : gset string)
    (m : nat * Re.found) :
  address_postal_step text acc m = acc \/
  exists t, address_postal_step text acc m = acc ∪ {[t]} /\
            30 < String.length t < 300.
Proof.
  unfold address_postal_step.
  destruct (existsb _ _); [|by left].
  destruct (map _ _) as [|l ls]; [by left|].
  destruct (_ && _) eqn:H; [right|by left].
  apply andb_prop in H as [H1 H2]. apply Nat.ltb_lt in H1, H2. eauto.
Qed.

Lemma longer_than_add n acc t :
  longer_than n acc -> n < String.length t -> longer_than n (acc ∪ {[t]}).
Proof.
  intros Hacc Ht x [Hx|Hx%elem_of_singleton]%elem_of_union;
    [by apply Hacc|by subst x].
Qed.

Lemma addresses_longer_than_ten (sp : soup) :
  longer_than 10 (extract_addresses sp).
Proof.
  unfold extract_addresses.
  assert (Htag : forall acc t, longer_than 10 acc ->
                               longer_than 10 (address_tag_step acc t)).
  { intros acc t Hacc. rewrite address_tag_step_spec.
    destruct (10 <? _) eqn:H; [|done]. apply Nat.ltb_lt in H.
    by apply longer_than_add. }
  apply (foldl_preserves (longer_than 10)).
  2:{ intros acc pattern _ Hacc. apply foldl_preserves; [done|].
      intros acc' m _ Hacc'.
      destruct (address_postal_step_adds (get_text sp) acc' m)
        as [->|(t & -> & Ht)]; [done|].
      apply longer_than_add; [done|lia]. }
  unfold addresses_from_context. apply (foldl_preserves (longer_than 10)).
  2:{ intros acc [i line] _ Hacc. rewrite address_context_step_spec.
      destruct (context_kept _ _) eqn:Hk; [|done].
      unfold context_kept in Hk. simpl in Hk.
      apply andb_prop in Hk as [_ Hk]. apply andb_prop in Hk as [H1 _].
      apply Nat.ltb_lt in H1. apply longer_than_add; [done|]. simpl. lia. }
  apply (foldl_preserves (longer_than 10)); [|intros acc t _; apply Htag].
  apply (foldl_preserves (longer_than 10)).
  2:{ intros acc cn _ Hacc. apply foldl_preserves; [done|].
      intros acc' t _ Hacc'.
      destruct (address_class_step_adds acc' t) as [->|[-> Ht]]; [done|].
      apply longer_than_add; [done|lia]. }
  apply (foldl_preserves (longer_than 10)); [|intros acc t _; apply Htag].
  intros x Hx. set_solver.
Qed.

Lemma addresses_keep (sp : soup) (found : gset string) (x : string) :
  x ∈ found ->
  x ∈ foldl (fun addresses pattern =>
             foldl (address_postal_step (get_text sp)) addresses
               (Re.finditer false pattern (get_text sp)))
        (addresses_from_context
           (foldl address_tag_step
              (foldl (fun addresses class_name =>
                        foldl address_class_step addresses
                          (class_matches sp class_name))
                 found address_classes)
              (itemtype_address sp))
           (get_text sp))
        postal_patterns.
Proof.
  intros Hx.
  apply (foldl_preserves (fun acc => x ∈ acc)).
  2:{ intros acc p _ Hacc. apply (foldl_preserves (fun acc => x ∈ acc)); [done|].
      intros acc' m _ Hacc'.
      destruct (address_postal_step_adds (get_text sp) acc' m)
        as [->|(t & -> & _)]; set_solver. }
  unfold addresses_from_context.
  apply (foldl_preserves (fun acc => x ∈ acc)).
  2:{ intros acc il _ Hacc. rewrite address_context_step_spec.
      destruct (context_kept _ _); set_solver. }
  apply (foldl_preserves (fun acc => x ∈ acc)).
  2:{ intros acc t _ Hacc. rewrite address_tag_step_spec.
      destruct (10 <? _); set_solver. }
  apply (foldl_preserves (fun acc => x ∈ acc)); [done|].
  intros acc cn _ Hacc. apply (foldl_preserves (fun acc => x ∈ acc)); [done|].
  intros acc' t _ Hacc'.
  destruct (address_class_step_adds acc' t) as [->|[-> _]]; set_solver.
Qed.

(** X13. Every address reported by the address detector, whichever of the
    five strategies found it, has more than 10 characters. *)
Theorem addresses_have_more_than_ten_characters (sp : soup) (x : string) :
  x ∈ extract_addresses sp -> 10 < String.length x.
Proof. apply addresses_longer_than_ten. Qed.

(** X14. The text of an [<address>] element that has more than 10
    characters is always among the reported addresses: the four later
    strategies only add to the set. *)
Theorem address_tags_always_reported (sp : soup) (t : string) :
  t ∈ address_tags sp -> 10 < String.length t -> t ∈ extract_addresses sp.
Proof.
  intros Hin Hlen. unfold extract_addresses. apply addresses_keep.
  apply (elem_of_foldl_add _ _ _ address_tag_step_spec). right.
  exists t. split; [done|]. split; [|done]. by apply Nat.ltb_lt.
Qed.

(** ** The verdict of the phone filter and the digits of a candidate *)

Lemma digits_of_normalized (num : string) :
  strip_non_digits (normalize_spaces num) = keep_chars Chr.is_digit num.
Proof.
  rewrite strip_non_digits_keep. apply keep_chars_normalize_spaces.
  apply space_no_digit.
Qed.

(** X15. The phone filter judges a candidate by its digits alone: the
    digits-only form of the normalized candidate is made of the digits of
    the raw candidate, so two candidates with the same digits, whatever
    their separators, are both kept or both skipped. *)
Theorem phone_verdict_by_digits (num num' : string) :
  strip_non_digits (normalize_spaces num) = keep_chars Chr.is_digit num /\
  (keep_chars Chr.is_digit num' = keep_chars Chr.is_digit num ->
   plausible num' = plausible num).
Proof.
  split; [apply digits_of_normalized|].
  intros H. unfold plausible. by rewrite !digits_of_normalized, H.
Qed.

Lemma elem_of_tel_links (hrefs : list string) (num : string) :
  num ∈ tel_links hrefs <->
  exists href, href ∈ hrefs /\ Str.startswith "tel:" href = true /\
               num = Str.strip (Str.remove_all "tel:" href).
Proof.
  unfold tel_links. rewrite list_elem_of_omap. split.
  - intros (href & Hin & H). exists href.
    destruct (Str.startswith "tel:" href); [|done]. by injection H as <-.
  - intros (href & Hin & Hpre & ->). exists href. by rewrite Hpre.
Qed.

(** X16. The phone detector reports exactly the normalized forms of the
    plausible candidates of its three sources: the matches of the phone
    pattern in the text, the targets of the [tel:] links with the marker
    removed and the ends stripped, and the values of the [data-phone]
    attributes. *)
Theorem extract_phones_sources (sp : soup) (x : string) :
  x ∈ extract_phones sp <->
  exists num,
    (num ∈ Re.findall false PHONE_REGEX (get_text sp) \/
     (exists href, href ∈ a_href sp /\ Str.startswith "tel:" href = true /\
                   num = Str.strip (Str.remove_all "tel:" href)) \/
     num ∈ data_phone sp) /\
    plausible num = true /\ x = normalize_spaces num.
Proof.
  unfold extract_phones. rewrite elem_of_clean_phone_numbers.
  split.
  - intros (num & Hin & Hok & ->). exists num. split; [|done].
    apply elem_of_app in Hin as [Hin|Hin]; [by left|].
    apply elem_of_app in Hin as [Hin|Hin]; [|by right; right].
    right; left. by apply elem_of_tel_links.
  - intros (num & Hsrc & Hok & ->). exists num. split; [|done].
    rewrite !elem_of_app, elem_of_tel_links. tauto.
Qed.

(** ** The persistence sink *)

Section ExcelFacts.
Variable listing : gset string -> list string.

Lemma save_all_rows (file : option (list (list string)))
    (pages : list (string * result)) :
  pages <> [] ->
  save_all listing file pages =
  Some (default [HEADER_ROW] file
        ++ map (fun page => row_data listing page.1 page.2) pages).
Proof.
  unfold save_all.
  assert (H : forall ws pages,
            foldl (fun file page =>
                     Some (save_to_excel listing file page.1 page.2))
              (Some ws) pages
            = Some (ws ++ map (fun page => row_data listing page.1 page.2)
                            pages)).
  { intros ws ps. revert ws. induction ps as [|pg ps IH]; intros ws; simpl.
    - by rewrite app_nil_r.
    - rewrite IH. unfold save_to_excel. by rewrite <- app_assoc. }
  destruct pages as [|pg pages]; [done|]. intros _. simpl.
  rewrite H. unfold save_to_excel. rewrite <- app_assoc. by destruct file.
Qed.


(** X18. A scrape that did not succeed is stored as a row of placeholders:
    the URL, the status, Not Found for the emails, the phones and the
    WhatsApp numbers, the URL again in the column of the website URLs, and
    Not Found for the addresses, whatever the order in which sets are
    listed. *)
Theorem failed_scrape_row urlparse urljoin parse session_get post_fetch_error
    (url : string) :
  let data := scrape_contact_page urlparse urljoin parse session_get
                post_fetch_error url in
  status data <> "success" ->
  row_data listing url data
  = [url; status data; "Not Found"; "Not Found"; "Not Found"; url;
     "Not Found"].
Proof.
  intros data Hst. subst data.
  destruct (scrape_empty_or_success urlparse urljoin parse session_get
              post_fetch_error url) as [H|H]; [|done].
  rewrite H. reflexivity.
Qed.
End ExcelFacts.

(** ** Instances *)

Lemma scrape_success_iff_witness :
  scrape_contact_page Urllib.urlparse Urllib.urljoin (fun _ => empty_soup)
    (fun _ => Returned (html_response "")) (fun _ _ => Some OtherException)
    "example.com"
  = _empty_result (Some "unexpected_error").
Proof.
  apply (proj1 (proj2 (scrape_success_iff Urllib.urlparse Urllib.urljoin
                         (fun _ => empty_soup)
                         (fun _ => Returned (html_response ""))
                         (fun _ _ => Some OtherException) "example.com"))).
  vm_compute. discriminate.
Defined.

Lemma urls_seeded_with_site_root_witness :
  urls (scrape_contact_page Urllib.urlparse Urllib.urljoin
          (fun _ => empty_soup) (fun _ => Returned (html_response ""))
          (fun _ _ => None) "example.com") <> ∅.
Proof.
  apply (proj2 (proj2 (urls_seeded_with_site_root Urllib.urlparse
                         Urllib.urljoin empty_soup ""))
           (fun _ => empty_soup) (fun _ => Returned (html_response ""))
           (fun _ _ => None) "example.com").
  vm_compute. reflexivity.
Defined.

Lemma media_urls_only_from_root_or_relative_witness :
  "https://example.com/logo.png"
  = base_domain_of Urllib.urlparse "https://example.com/contact" \/
  exists href, href ∈ a_href media_page /\
               Str.startswith "http" href = false /\
               Str.startswith "/" href = true /\
               "https://example.com/logo.png"
               = Urllib.urljoin
                   (base_domain_of Urllib.urlparse
                      "https://example.com/contact") href.
Proof.
  apply (media_urls_only_from_root_or_relative Urllib.urlparse Urllib.urljoin
           media_page "https://example.com/contact").
  - apply (bool_decide_unpack _). vm_compute. exact I.
  - vm_compute. reflexivity.
Defined.

Lemma clean_phone_numbers_by_candidates_witness :
  clean_phone_numbers ["5551234567"; "1984"]
  = clean_phone_numbers ["1984"; "5551234567"; "1984"].
Proof.
  apply (proj2 (clean_phone_numbers_by_candidates
                  ["5551234567"; "1984"] ["1984"; "5551234567"; "1984"])).
  intros num. rewrite !elem_of_cons, !elem_of_nil. tauto.
Defined.

Lemma phone_output_rules_witness :
  7 <= String.length (strip_non_digits "+1 415 555 0100") <= 15.
Proof.
  apply (phone_output_rules ["+1 415 555 0100"; "14155550100"]
           "+1 415 555 0100").
  apply (bool_decide_unpack _). vm_compute. exact I.
Defined.

Lemma whatsapp_text_numbers_witness :
  8 <= String.length (strip_non_digits "+14155551234") <= 16 /\
  (7 <=? String.length (strip_non_digits "+14155551234")) = true.
Proof.
  split.
  - apply (proj1 (whatsapp_text_numbers "WhatsApp: +14155551234. Visit us"
                    "+14155551234")).
    apply (bool_decide_unpack _). vm_compute. exact I.
  - apply (proj1 (proj2 (whatsapp_text_numbers
                           "WhatsApp: +14155551234. Visit us"
                           "+14155551234"))).
    apply (bool_decide_unpack _). vm_compute. exact I.
Defined.

Lemma whatsapp_numbers_have_seven_digits_witness :
  7 <= String.length (strip_non_digits "12345678").
Proof.
  apply (whatsapp_numbers_have_seven_digits
           (whatsapp_page "WhatsApp: 12345678") "12345678").
  apply (bool_decide_unpack _). vm_compute. exact I.
Defined.

Lemma text_urls_end_clean_witness :
  Chr.one_of punctuation_chars "e" = false /\
  is_media "https://example.com/page" = false /\
  exists rest, "https://example.com/page)." = "https://example.com/page" +:+ rest.
Proof.
  apply (text_urls_end_clean ∅ "https://example.com/page)."
           "https://example.com/page" "e").
  - apply (bool_decide_unpack _). vm_compute. exact I.
  - apply not_elem_of_empty.
  - reflexivity.
Defined.

Lemma context_addresses_single_line_witness :
  has_char (Ascii.eqb "010")
    "Welcome Our office is at 12 Main Street Springfield 62704 Open daily"
  = false.
Proof.
  apply (context_addresses_single_line office_page
           "Welcome Our office is at 12 Main Street Springfield 62704 Open daily").
  apply (bool_decide_unpack _). vm_compute. exact I.
Defined.

Lemma addresses_have_more_than_ten_characters_witness :
  10 < String.length "123 Main St, Springfield, 62704".
Proof.
  apply (addresses_have_more_than_ten_characters address_page
           "123 Main St, Springfield, 62704").
  apply (bool_decide_unpack _). vm_compute. exact I.
Defined.

Lemma address_tags_always_reported_witness :
  "123 Main St, Springfield, 62704" ∈ extract_addresses address_page.
Proof.
  apply (address_tags_always_reported address_page
           "123 Main St, Springfield, 62704").
  - left.
  - vm_compute. lia.
Defined.

Lemma phone_verdict_by_digits_witness :
  plausible "+1 415 555 0100" = plausible "14155550100".
Proof.
  apply (proj2 (phone_verdict_by_digits "14155550100" "+1 415 555 0100")).
  vm_compute. reflexivity.
Defined.


Lemma failed_scrape_row_witness :
  row_data elements "example.com"
    (scrape_contact_page Urllib.urlparse Urllib.urljoin (fun _ => empty_soup)
       (fun _ => Returned json_response) (fun _ _ => None) "example.com")
  = ["example.com"; "failed"; "Not Found"; "Not Found"; "Not Found";
     "example.com"; "Not Found"].
Proof.
  apply (failed_scrape_row elements Urllib.urlparse Urllib.urljoin
           (fun _ => empty_soup) (fun _ => Returned json_response)
           (fun _ _ => None) "example.com").
  vm_compute. discriminate.
Defined.
